(** * Verification of the fluxlog template engine, text wrapper and value sanitizer

    Shallow embedding of [src/fluxlog.py] ([FluxLogger]).  Python strings are
    lists of Unicode code points ([list N]); Python's dynamically typed
    configuration values are the inductive [pyval]; exceptions are the error
    side of the [outcome] monad. *)

From Stdlib Require Import List ZArith NArith String Ascii Bool Lia.
Import ListNotations.
Open Scope string_scope.
Open Scope list_scope.
Open Scope N_scope.
Set Warnings "-register-all".

(* ------------------------------------------------------------------ *)
(** ** Python strings *)

Definition pychar := N.
Definition pystr := list pychar.

(** String literal helper: an ASCII Rocq string as a Python string. *)
Definition s_ (s : string) : pystr := map N_of_ascii (list_ascii_of_string s).
Arguments s_ s%_string.

Definition ESC : pychar := 27.

Fixpoint str_eqb (a b : pystr) : bool :=
  match a, b with
  | [], [] => true
  | x :: a', y :: b' => (x =? y) && str_eqb a' b'
  | _, _ => false
  end.

Definition in_range (lo hi c : N) : bool := (lo <=? c) && (c <=? hi).

(** [str.isspace] / regex [\s] over code points. *)
Definition is_space (c : pychar) : bool :=
  in_range 9 13 c || in_range 28 32 c || (c =? 133) || (c =? 160)
  || (c =? 5760) || in_range 8192 8202 c || (c =? 8232) || (c =? 8233)
  || (c =? 8239) || (c =? 8287) || (c =? 12288).

(** Drop leading whitespace (used on the reversed string by [rstrip]). *)
Fixpoint lstrip_sp (l : pystr) : pystr :=
  match l with
  | c :: r => if is_space c then lstrip_sp r else l
  | [] => []
  end.

(** [str.rstrip()] *)
Definition rstrip (s : pystr) : pystr := rev (lstrip_sp (rev s)).

(* ------------------------------------------------------------------ *)
(** ** ANSI escape scanning

    Both regular expressions of the source start with ESC and contain no
    ESC afterwards; their greedy classes are pairwise disjoint, so Python's
    backtracking matcher never backs up and [re.sub] is the left-to-right
    automaton below.  A pending match keeps its buffered text; when it
    fails at character [c], the buffer is emitted unchanged (it holds no ESC,
    so a re-scan would emit it verbatim) and [c] is scanned afresh. *)

Inductive trans := Cont (p : nat) | Done | Fail.

Inductive scan_st := Normal | Pend (buf : pystr) (p : nat).

Section Scanner.
Variable delta : nat -> pychar -> trans.

Definition step_normal (c : pychar) : pystr * scan_st :=
  if c =? ESC then ([], Pend [c] 0%nat) else ([c], Normal).

Definition step (st : scan_st) (c : pychar) : pystr * scan_st :=
  match st with
  | Normal => step_normal c
  | Pend buf p =>
      match delta p c with
      | Cont p' => ([], Pend (buf ++ [c]) p')
      | Done => ([], Normal)
      | Fail => let (e, st') := step_normal c in (buf ++ e, st')
      end
  end.

Definition flush (st : scan_st) : pystr :=
  match st with Normal => [] | Pend buf _ => buf end.

Fixpoint scan (st : scan_st) (s : pystr) : pystr :=
  match s with
  | [] => flush st
  | c :: r => let (e, st') := step st c in e ++ scan st' r
  end.
End Scanner.

(** [FluxLogger.__remove_ansi]: [re.sub(r"\033[@-_][0-?]*[ -/]*[@-~]", "", text)].
    Phase 0: after ESC; 1: parameter bytes; 2: intermediate bytes. *)
Definition delta_remove (p : nat) (c : pychar) : trans :=
  match p with
  | 0%nat => if in_range 64 95 c then Cont 1 else Fail
  | 1%nat => if in_range 48 63 c then Cont 1
             else if in_range 32 47 c then Cont 2
             else if in_range 64 126 c then Done else Fail
  | _ => if in_range 32 47 c then Cont 2
         else if in_range 64 126 c then Done else Fail
  end.

Definition remove_ansi (s : pystr) : pystr := scan delta_remove Normal s.

(** The pattern of [__wrap_text]:
    [\x1B(?:[@-Z\\-_]|\[[0-?]*[ -/]*[@-~])]. *)
Definition delta_wrap (p : nat) (c : pychar) : trans :=
  match p with
  | 0%nat => if in_range 64 90 c || in_range 92 95 c then Done
             else if c =? 91 then Cont 1 else Fail
  | 1%nat => if in_range 48 63 c then Cont 1
             else if in_range 32 47 c then Cont 2
             else if in_range 64 126 c then Done else Fail
  | _ => if in_range 32 47 c then Cont 2
         else if in_range 64 126 c then Done else Fail
  end.

Definition wrap_strip (s : pystr) : pystr := scan delta_wrap Normal s.

(** [visible_length] inside [__wrap_text]. *)
Definition visible_length (s : pystr) : nat := List.length (wrap_strip s).

(* ------------------------------------------------------------------ *)
(** ** [FluxLogger.__wrap_text] *)

(** [text.split("\n")] *)
Fixpoint split_nl (s : pystr) : list pystr :=
  match s with
  | [] => [[]]
  | c :: r =>
      let parts := split_nl r in
      if c =? 10 then [] :: parts
      else match parts with
           | p :: ps => (c :: p) :: ps
           | [] => [[c]]
           end
  end.

(** [re.findall(r"\S+\s*", line)]: [cur] is the token being read, [in_ws]
    tells whether its trailing whitespace has started. *)
Fixpoint tokens_aux (s : pystr) (cur : pystr) (in_ws : bool) : list pystr :=
  match s with
  | [] => match cur with [] => [] | _ => [cur] end
  | c :: r =>
      if is_space c then
        match cur with
        | [] => tokens_aux r [] false
        | _ => tokens_aux r (cur ++ [c]) true
        end
      else if in_ws then cur :: tokens_aux r [c] false
      else tokens_aux r (cur ++ [c]) false
  end.

Definition tokens (line : pystr) : list pystr := tokens_aux line [] false.

Definition nonempty (s : pystr) : bool := match s with [] => false | _ => true end.

(** The inner [for word in words] loop; [cur] is [current_line] and
    [curlen] is [current_line_visible_length]. *)
Fixpoint wrap_words (width : Z) (words : list pystr) (cur : pystr) (curlen : nat)
  : list pystr :=
  match words with
  | [] => if nonempty cur then [rstrip cur] else []
  | w :: ws =>
      let wl := visible_length w in
      if (width <? Z.of_nat (curlen + wl))%Z then
        (if nonempty cur then [rstrip cur] else [])
          ++ wrap_words width ws w wl
      else wrap_words width ws (cur ++ w) (curlen + wl)
  end.

Definition wrap_line (width : Z) (line : pystr) : list pystr :=
  wrap_words width (tokens line) [] 0.

Definition wrap_text (text : pystr) (width : Z) : list pystr :=
  flat_map (wrap_line width) (split_nl text).

(* ------------------------------------------------------------------ *)
(** ** Python values and exceptions *)

Inductive pyval :=
| VNone
| VBool (b : bool)
| VInt (z : Z)
| VStr (s : pystr)
| VList (l : list pyval)
| VTuple (l : list pyval)
| VDict (kvs : list (pystr * pyval)).

Inductive pytype := TNone | TBool | TInt | TStr | TList | TTuple | TDict.

Definition type_of (v : pyval) : pytype :=
  match v with
  | VNone => TNone | VBool _ => TBool | VInt _ => TInt | VStr _ => TStr
  | VList _ => TList | VTuple _ => TTuple | VDict _ => TDict
  end.

Definition pytype_eqb (a b : pytype) : bool :=
  match a, b with
  | TNone, TNone | TBool, TBool | TInt, TInt | TStr, TStr
  | TList, TList | TTuple, TTuple | TDict, TDict => true
  | _, _ => false
  end.

Inductive exc :=
| TypeError | ValueError | KeyError | AttributeError | IndexError
| Exception_     (** a bare [raise Exception(...)] of the source *)
| RecursionLimit (** Python's recursion limit *)
| OutOfFuel.     (** the worklist bound [params_fuel] of [run_params] ran out *)

Inductive outcome (A : Type) := Ok (a : A) | Err (e : exc).
Arguments Ok {A} a.
Arguments Err {A} e.

Definition bind {A B} (m : outcome A) (k : A -> outcome B) : outcome B :=
  match m with Ok a => k a | Err e => Err e end.

Notation "'let*' x := m 'in' k" := (bind m (fun x => k))
  (at level 200, x name, m at level 100, k at level 200).

(** Integer view of [int] and its subclass [bool]. *)
Definition as_int (v : pyval) : outcome Z :=
  match v with
  | VInt z => Ok z
  | VBool b => Ok (if b then 1 else 0)%Z
  | _ => Err TypeError
  end.

Definition as_str (v : pyval) : outcome pystr :=
  match v with VStr s => Ok s | _ => Err TypeError end.

(** Calling a [str] method on a value: [AttributeError] on other types. *)
Definition str_method (v : pyval) : outcome pystr :=
  match v with VStr s => Ok s | _ => Err AttributeError end.

(** Truthiness. *)
Definition truthy (v : pyval) : bool :=
  match v with
  | VNone => false
  | VBool b => b
  | VInt z => negb (z =? 0)%Z
  | VStr s => nonempty s
  | VList l | VTuple l => match l with [] => false | _ => true end
  | VDict l => match l with [] => false | _ => true end
  end.

(** [d.get(k)] on a dict with string keys. *)
Fixpoint dget (kvs : list (pystr * pyval)) (k : pystr) : option pyval :=
  match kvs with
  | [] => None
  | (k', v) :: r => if str_eqb k k' then Some v else dget r k
  end.

Definition dget_default (kvs : list (pystr * pyval)) (k : pystr) (d : pyval) : pyval :=
  match dget kvs k with Some v => v | None => d end.

(** [d[k]] *)
Definition dindex (kvs : list (pystr * pyval)) (k : pystr) : outcome pyval :=
  match dget kvs k with Some v => Ok v | None => Err KeyError end.

(** [d[k] = v]: replaces in place, or appends a new key. *)
Fixpoint dset (kvs : list (pystr * pyval)) (k : pystr) (v : pyval) : list (pystr * pyval) :=
  match kvs with
  | [] => [(k, v)]
  | (k', v') :: r => if str_eqb k k' then (k', v) :: r else (k', v') :: dset r k v
  end.

(** [d.setdefault(k, v)] *)
Definition dsetdefault (kvs : list (pystr * pyval)) (k : pystr) (v : pyval) :=
  match dget kvs k with Some _ => kvs | None => kvs ++ [(k, v)] end.

(* ------------------------------------------------------------------ *)
(** ** Python operations used by the directives *)

(** Decimal digits of a natural number ([str] of an [int]). *)
Fixpoint n_digits (fuel : nat) (n : N) (acc : pystr) : pystr :=
  match fuel with
  | O => acc
  | S f =>
      let acc' := (48 + n mod 10) :: acc in
      if n / 10 =? 0 then acc' else n_digits f (n / 10) acc'
  end.

Definition n_to_dec (n : N) : pystr := n_digits (S (N.size_nat n)) n [].

Definition z_to_dec (z : Z) : pystr :=
  if (z <? 0)%Z then 45 :: n_to_dec (Z.to_N (- z)) else n_to_dec (Z.to_N z).

Definition hex_digit (n : N) : pychar := if n <? 10 then 48 + n else 87 + n.

(** [repr] of a [str]; the printability table is Latin-1's (other code
    points are taken as printable). *)
Definition str_repr (s : pystr) : pystr :=
  let has c := existsb (N.eqb c) s in
  let q := if has 39 && negb (has 34) then 34 else 39 in
  let esc c :=
    if c =? 92 then [92; 92]
    else if c =? q then [92; q]
    else if c =? 9 then [92; 116]
    else if c =? 10 then [92; 110]
    else if c =? 13 then [92; 114]
    else if (c <? 32) || in_range 127 160 c || (c =? 173)
    then [92; 120; hex_digit (c / 16); hex_digit (c mod 16)]
    else [c] in
  [q] ++ flat_map esc s ++ [q].

Fixpoint join_comma (l : list pystr) : pystr :=
  match l with
  | [] => []
  | [x] => x
  | x :: r => x ++ [44; 32] ++ join_comma r
  end.

(** [repr] *)
Fixpoint py_repr (v : pyval) : pystr :=
  match v with
  | VNone => s_ "None"
  | VBool true => s_ "True"
  | VBool false => s_ "False"
  | VInt z => z_to_dec z
  | VStr s => str_repr s
  | VList l => [91] ++ join_comma (map py_repr l) ++ [93]
  | VTuple l =>
      match l with
      | [x] => [40] ++ py_repr x ++ [44; 41]
      | _ => [40] ++ join_comma (map py_repr l) ++ [41]
      end
  | VDict kvs =>
      [123] ++ join_comma (map (fun kv => str_repr (fst kv) ++ [58; 32] ++ py_repr (snd kv)) kvs)
      ++ [125]
  end.

(** [str] (and f-string interpolation) *)
Definition py_str (v : pyval) : pystr :=
  match v with VStr s => s | _ => py_repr v end.

(** [len] *)
Definition py_len (v : pyval) : outcome Z :=
  match v with
  | VStr s => Ok (Z.of_nat (List.length s))
  | VList l | VTuple l => Ok (Z.of_nat (List.length l))
  | VDict kvs => Ok (Z.of_nat (List.length kvs))
  | _ => Err TypeError
  end.

Definition is_intlike (v : pyval) : bool :=
  match v with VInt _ | VBool _ => true | _ => false end.

(** [a + b] *)
Definition py_add (a b : pyval) : outcome pyval :=
  match a, b with
  | VStr x, VStr y => Ok (VStr (x ++ y))
  | VList x, VList y => Ok (VList (x ++ y))
  | VTuple x, VTuple y => Ok (VTuple (x ++ y))
  | _, _ =>
      if is_intlike a && is_intlike b then
        let* x := as_int a in let* y := as_int b in Ok (VInt (x + y))
      else Err TypeError
  end.

Fixpoint rep {A} (n : nat) (l : list A) : list A :=
  match n with O => [] | S k => l ++ rep k l end.

Definition seq_mul (v : pyval) (n : Z) : outcome pyval :=
  let k := Z.to_nat n in
  match v with
  | VStr s => Ok (VStr (rep k s))
  | VList l => Ok (VList (rep k l))
  | VTuple l => Ok (VTuple (rep k l))
  | _ => Err TypeError
  end.

(** [a * b] *)
Definition py_mul (a b : pyval) : outcome pyval :=
  if is_intlike a && is_intlike b then
    let* x := as_int a in let* y := as_int b in Ok (VInt (x * y))
  else if is_intlike b then let* n := as_int b in seq_mul a n
  else if is_intlike a then let* n := as_int a in seq_mul b n
  else Err TypeError.

(** Slices [s[:k]] and [s[m:]] with Python's negative indices. *)
Definition norm_index {A} (l : list A) (k : Z) : nat :=
  Z.to_nat (if (k <? 0)%Z then Z.of_nat (List.length l) + k else k)%Z.

Definition slice_to {A} (l : list A) (k : Z) : list A := firstn (norm_index l k) l.
Definition slice_from {A} (l : list A) (m : Z) : list A := skipn (norm_index l m) l.

(** [==] (with [1 == True]) *)
Fixpoint py_eq (a b : pyval) : bool :=
  let fix list_eq (xs ys : list pyval) : bool :=
    match xs, ys with
    | [], [] => true
    | x :: xs', y :: ys' => py_eq x y && list_eq xs' ys'
    | _, _ => false
    end in
  match a, b with
  | VNone, VNone => true
  | VStr x, VStr y => str_eqb x y
  | VList xs, VList ys => list_eq xs ys
  | VTuple xs, VTuple ys => list_eq xs ys
  | VDict xs, VDict ys =>
      Nat.eqb (List.length xs) (List.length ys)
      && forallb (fun kv => match dget ys (fst kv) with
                            | Some y => py_eq (snd kv) y
                            | None => false end) xs
  | _, _ =>
      if is_intlike a && is_intlike b then
        match as_int a, as_int b with Ok x, Ok y => Z.eqb x y | _, _ => false end
      else false
  end.

Fixpoint is_prefix (p s : pystr) : bool :=
  match p, s with
  | [], _ => true
  | x :: p', y :: s' => (x =? y) && is_prefix p' s'
  | _, [] => false
  end.

Fixpoint substr (p s : pystr) : bool :=
  is_prefix p s || match s with [] => false | _ :: r => substr p r end.

(** [a in b] *)
Definition py_contains (a b : pyval) : outcome bool :=
  match b with
  | VStr s => match a with VStr p => Ok (substr p s) | _ => Err TypeError end
  | VList l | VTuple l => Ok (existsb (py_eq a) l)
  | VDict kvs =>
      match a with
      | VStr k => Ok (match dget kvs k with Some _ => true | None => false end)
      | VList _ | VDict _ => Err TypeError
      | _ => Ok false
      end
  | _ => Err TypeError
  end.

(** [for x in v] *)
Definition py_iter (v : pyval) : outcome (list pyval) :=
  match v with
  | VStr s => Ok (map (fun c => VStr [c]) s)
  | VList l | VTuple l => Ok l
  | VDict kvs => Ok (map (fun kv => VStr (fst kv)) kvs)
  | _ => Err TypeError
  end.

(** [int(s)] for a [str]: surrounding whitespace, an optional sign, and
    decimal digits with single underscores between digits. *)
Fixpoint parse_digits (s : pystr) (acc : Z) (prev_digit : bool) : outcome Z :=
  match s with
  | [] => if prev_digit then Ok acc else Err ValueError
  | c :: r =>
      if in_range 48 57 c then parse_digits r (acc * 10 + Z.of_N (c - 48))%Z true
      else if (c =? 95) && prev_digit then
        match r with
        | d :: _ => if in_range 48 57 d then parse_digits r acc false else Err ValueError
        | [] => Err ValueError
        end
      else Err ValueError
  end.

Definition py_int_of_str (s : pystr) : outcome Z :=
  match rev (lstrip_sp (rev (lstrip_sp s))) with
  | 45 :: r => let* z := parse_digits r 0 false in Ok (- z)%Z
  | 43 :: r => parse_digits r 0 false
  | r => parse_digits r 0 false
  end.

(** Case mappings (modelled for ASCII letters). *)
Definition is_up (c : pychar) : bool := in_range 65 90 c.
Definition is_low (c : pychar) : bool := in_range 97 122 c.
Definition lower_c (c : pychar) : pychar := if is_up c then c + 32 else c.
Definition upper_c (c : pychar) : pychar := if is_low c then c - 32 else c.

Definition lower (s : pystr) : pystr := map lower_c s.
Definition upper (s : pystr) : pystr := map upper_c s.
Definition swapcase (s : pystr) : pystr :=
  map (fun c => if is_up c then lower_c c else upper_c c) s.
Definition capitalize (s : pystr) : pystr :=
  match s with [] => [] | c :: r => upper_c c :: lower r end.

Fixpoint title_aux (prev_cased : bool) (s : pystr) : pystr :=
  match s with
  | [] => []
  | c :: r =>
      let c' := if prev_cased then lower_c c else upper_c c in
      c' :: title_aux (is_up c' || is_low c') r
  end.
Definition title (s : pystr) : pystr := title_aux false s.

(** The fill character argument of [ljust]/[rjust]/[center]. *)
Definition fill_char (f : pyval) : outcome pychar :=
  match f with VStr [c] => Ok c | _ => Err TypeError end.

Definition ljust (s : pystr) (w : pyval) (f : pyval) : outcome pystr :=
  let* w := as_int w in let* c := fill_char f in
  let n := Z.of_nat (List.length s) in
  Ok (if (w <=? n)%Z then s else s ++ repeat c (Z.to_nat (w - n))).

Definition rjust (s : pystr) (w : pyval) (f : pyval) : outcome pystr :=
  let* w := as_int w in let* c := fill_char f in
  let n := Z.of_nat (List.length s) in
  Ok (if (w <=? n)%Z then s else repeat c (Z.to_nat (w - n)) ++ s).

(** CPython's [pad] for [str.center]. *)
Definition center (s : pystr) (w : pyval) (f : pyval) : outcome pystr :=
  let* w := as_int w in let* c := fill_char f in
  let n := Z.of_nat (List.length s) in
  let marg := (w - n)%Z in
  if (marg <=? 0)%Z then Ok s
  else
    let left := (marg / 2 + Z.land marg (Z.land w 1))%Z in
    Ok (repeat c (Z.to_nat left) ++ s ++ repeat c (Z.to_nat (marg - left))).

(* ------------------------------------------------------------------ *)
(** ** [__parse_log_line]: directive defaults and [return_values] *)

Definition return_values (value default : pyval) : outcome pyval :=
  if negb (pytype_eqb (type_of value) (type_of default)) then Err Exception_
  else match value, default with
       | VDict kvs, VDict dkvs =>
           Ok (VDict (fold_left (fun acc kv => dsetdefault acc (fst kv) (snd kv)) dkvs kvs))
       | VStr s, _ => if Nat.ltb (List.length s) 1 then Ok default else Ok value
       | _, _ => Ok value
       end.

Definition as_dict (v : pyval) : outcome (list (pystr * pyval)) :=
  match v with VDict kvs => Ok kvs | _ => Err AttributeError end.

Definition align_default : pyval :=
  VDict [(s_ "alignment", VStr (s_ "left")); (s_ "width", VInt 10); (s_ "fillchar", VStr (s_ " "))].
Definition case_default : pyval := VStr (s_ "upper").
Definition filter_default : pyval :=
  VDict [(s_ "mode", VStr (s_ "exclude")); (s_ "items", VList []); (s_ "replace", VStr []);
         (s_ "case_sensitive", VBool false)].
Definition affix_default : pyval := VDict [(s_ "prefix", VStr []); (s_ "suffix", VStr [])].
Definition ellipsis : pystr := [8230].
Definition truncate_default : pyval :=
  VDict [(s_ "width", VInt 10); (s_ "ending", VStr ellipsis); (s_ "position", VStr (s_ "end"))].
Definition color_default : pyval :=
  VDict [(s_ "foreground", VTuple []); (s_ "background", VTuple [])].
Definition style_default : pyval :=
  VDict [(s_ "bold", VBool false); (s_ "italic", VBool false); (s_ "underline", VBool false);
         (s_ "blink", VBool false); (s_ "reverse", VBool false)].
Definition pad_default : pyval :=
  VDict [(s_ "left", VInt 0); (s_ "right", VInt 0); (s_ "fillchar", VStr (s_ " "))].
Definition repeat_default : pyval := VDict [(s_ "count", VInt 1)].
Definition if_default : pyval := VDict [(s_ "condition", VDict []); (s_ "action", VDict [])].
Definition breakpoint_default : pyval := VDict [(s_ "min", VInt 0); (s_ "max", VInt 9999)].

(** Directive names whose value goes through [return_values], with the
    default the source passes. *)
Definition directive_defaults : list (pystr * pyval) :=
  [(s_ "align", align_default); (s_ "case", case_default); (s_ "filter", filter_default);
   (s_ "affix", affix_default); (s_ "truncate", truncate_default);
   (s_ "color", color_default); (s_ "style", style_default); (s_ "pad", pad_default);
   (s_ "repeat", repeat_default); (s_ "if", if_default)].

Definition str_in (s : pystr) (l : list string) : bool := existsb (fun x => str_eqb s (s_ x)) l.
Arguments str_in s l%_string.

Definition map_str (f : pystr -> pystr) (v : pyval) : outcome pyval :=
  let* s := str_method v in Ok (VStr (f s)).

(** Width adjustment shared by [align] and [truncate]:
    [pvalue["width"] += +(len(value) - len(self.__remove_ansi(value)))]. *)
Definition adjusted_width (kvs : list (pystr * pyval)) (s : pystr) : outcome pyval :=
  let* w := dindex kvs (s_ "width") in
  py_add w (VInt (Z.of_nat (List.length s) - Z.of_nat (List.length (remove_ansi s)))%Z).

Definition apply_align (value pv : pyval) : outcome pyval :=
  let* pv := return_values pv align_default in
  let* kvs := as_dict pv in
  let* s := as_str value in
  let* w := adjusted_width kvs s in
  let* al := dindex kvs (s_ "alignment") in
  let* al := str_method al in
  let al := lower al in
  let* f := dindex kvs (s_ "fillchar") in
  let* s1 := if str_in al ["left"; "l"] then ljust s w f else Ok s in
  let* s2 := if str_in al ["right"; "r"] then rjust s1 w f else Ok s1 in
  let* s3 := if str_in al ["center"; "c"] then center s2 w f else Ok s2 in
  Ok (VStr s3).

Definition apply_case (value pv : pyval) : outcome pyval :=
  let* pv := return_values pv case_default in
  let* m := str_method pv in
  let m := lower m in
  let* v1 := if str_in m ["upper"; "u"] then map_str upper value else Ok value in
  let* v2 := if str_in m ["lower"; "l"] then map_str lower v1 else Ok v1 in
  let* v3 := if str_in m ["capitalize"; "cap"; "c"] then map_str capitalize v2 else Ok v2 in
  let* v4 := if str_in m ["swapcase"; "swap"; "s"] then map_str swapcase v3 else Ok v3 in
  if str_in m ["title"; "t"] then map_str title v4 else Ok v4.

(** The [for item in pvalue["items"]] loops of [filter]; [include] selects
    the [not in] test of the include branch. *)
Fixpoint filter_loop (include cs : bool) (rep : pyval) (items : list pyval) (value : pyval)
  : outcome pyval :=
  match items with
  | [] => Ok value
  | item :: r =>
      let* lhs := if cs then Ok item else map_str lower item in
      let* rhs := if cs then Ok value else map_str lower value in
      let* found := py_contains lhs rhs in
      let hit := if include then negb found else found in
      filter_loop include cs rep r (if hit then rep else value)
  end.

Definition apply_filter (value pv : pyval) : outcome pyval :=
  let* pv := return_values pv filter_default in
  let* kvs := as_dict pv in
  let* mode := dindex kvs (s_ "mode") in
  let* mode := str_method mode in
  let mode := lower mode in
  let* items := dindex kvs (s_ "items") in
  let* cs := dindex kvs (s_ "case_sensitive") in
  let* rep := dindex kvs (s_ "replace") in
  let* v1 :=
    if str_in mode ["exclude"; "e"] then
      let* its := py_iter items in filter_loop false (truthy cs) rep its value
    else Ok value in
  if str_in mode ["include"; "i"] then
    let* its := py_iter items in filter_loop true (truthy cs) rep its v1
  else Ok v1.

Definition apply_affix (value pv : pyval) : outcome pyval :=
  let* pv := return_values pv affix_default in
  let* kvs := as_dict pv in
  let* pre := dindex kvs (s_ "prefix") in
  let* n := py_len pre in
  let* v1 := if (0 <? n)%Z then py_add pre value else Ok value in
  let* suf := dindex kvs (s_ "suffix") in
  let* m := py_len suf in
  if (0 <? m)%Z then py_add v1 suf else Ok v1.

Definition str_list (l : list string) : pyval := VList (map (fun x => VStr (s_ x)) l).
Arguments str_list l%_string.

Definition apply_truncate (value pv : pyval) : outcome pyval :=
  let* pv := return_values pv truncate_default in
  let* kvs := as_dict pv in
  let* s := as_str value in
  let* w := adjusted_width kvs s in
  let* w := as_int w in
  if (w <? Z.of_nat (List.length s))%Z then
    let* pos := dindex kvs (s_ "position") in
    let* ending := dindex kvs (s_ "ending") in
    let* at_end := py_contains pos (str_list ["end"; "right"; "e"; "r"]) in
    if at_end then
      let* le := py_len ending in py_add (VStr (slice_to s (w - le))) ending
    else
      let* at_mid := py_contains pos (str_list ["center"; "middle"; "mid"; "m"; "c"]) in
      if at_mid then
        let* le := py_len ending in
        let left := ((w - le) / 2)%Z in
        let right := (w - le - left)%Z in
        let* t := py_add (VStr (slice_to s left)) ending in
        py_add t (VStr (slice_from s (- right)))
      else
        let* at_beg := py_contains pos (str_list ["beginning"; "start"; "left"; "b"; "s"; "l"]) in
        if at_beg then
          let* le := py_len ending in py_add ending (VStr (slice_from s (- (w - le))))
        else Ok value
  else Ok value.

Definition apply_visible (tw : Z) (vis : bool) (pv : pyval) : outcome bool :=
  match pv with
  | VBool b => Ok b
  | VStr (62 :: r) => let* n := py_int_of_str r in Ok (n <=? tw)%Z
  | VStr (60 :: r) => let* n := py_int_of_str r in Ok (tw <? n)%Z
  | VInt z => Ok (z <=? tw)%Z
  | _ => Ok vis
  end.

(** [lmap.get(level, "white")] and [cmap[segment["value"]]]. *)
Definition lmap : list (string * string) :=
  [("info", "white"); ("debug", "blue"); ("success", "green"); ("warning", "yellow");
   ("error", "red"); ("critical", "magenta")]%string.

Fixpoint assoc_s (l : list (string * string)) (k : pystr) : option string :=
  match l with
  | [] => None
  | (k', v) :: r => if str_eqb k (s_ k') then Some v else assoc_s r k
  end.

Definition cmap_lookup (level key : pystr) : outcome pystr :=
  let lv := match assoc_s lmap level with Some c => c | None => "white"%string end in
  match assoc_s [("timestamp", "green"); ("filename", "magenta"); ("wrapfunc", "yellow");
                 ("linenum", "cyan"); ("level", lv)]%string key with
  | Some c => Ok (s_ c)
  | None => Err KeyError
  end.

Definition apply_color (level key : pystr) (pv : pyval) : outcome (list (pystr * pyval)) :=
  let* c := return_values pv color_default in
  let* kvs := as_dict c in
  let* fg := dindex kvs (s_ "foreground") in
  if py_eq fg (VStr (s_ "dynamic")) then
    let* col := cmap_lookup level key in Ok (dset kvs (s_ "foreground") (VStr col))
  else Ok kvs.

Definition style_codes : list (string * string) :=
  [("bold", "1"); ("italic", "3"); ("underline", "4"); ("blink", "5"); ("reverse", "7")]%string.

Definition sgr (params : pystr) : pystr := [ESC; 91] ++ params ++ [109].

Fixpoint style_loop (kvs : list (pystr * pyval)) (codes : list (string * string))
  (style : list pystr) : outcome (list pystr) :=
  match codes with
  | [] => Ok style
  | (name, code) :: r =>
      let* b := dindex kvs (s_ name) in
      style_loop kvs r (if truthy b then style ++ [sgr (s_ code)] else style)
  end.

Definition apply_style (style : list pystr) (pv : pyval) : outcome (list pystr) :=
  let* pv := return_values pv style_default in
  let* kvs := as_dict pv in
  style_loop kvs style_codes style.

Definition apply_pad (value pv : pyval) : outcome pyval :=
  let* pv := return_values pv pad_default in
  let* kvs := as_dict pv in
  let* f := dindex kvs (s_ "fillchar") in
  let* l := dindex kvs (s_ "left") in
  let* ls := py_mul f l in
  let* r := dindex kvs (s_ "right") in
  let* rs := py_mul f r in
  Ok (VStr (py_str ls ++ py_str value ++ py_str rs)).

Definition apply_repeat (value pv : pyval) : outcome pyval :=
  let* c := return_values pv repeat_default in
  let* kvs := as_dict c in
  let* n := dindex kvs (s_ "count") in
  py_mul value n.

(** A parameter directive is a one-entry dict. *)
Definition param := list (pystr * pyval).

(** [if]: returns the parameters to splice in after the current one. *)
Definition apply_if (tw : Z) (pv : pyval) : outcome (list param) :=
  let* pv := return_values pv if_default in
  let* kvs := as_dict pv in
  let* cond := dindex kvs (s_ "condition") in
  let* ckvs := as_dict cond in
  let* ready :=
    if py_eq (dget_default ckvs (s_ "type") (VStr [])) (VStr (s_ "breakpoint")) then
      let* bp := return_values (dget_default ckvs (s_ "value") (VStr [])) breakpoint_default in
      let* bkvs := as_dict bp in
      let* mn := dindex bkvs (s_ "min") in
      let* mn := as_int mn in
      if (mn <=? tw)%Z then
        let* mx := dindex bkvs (s_ "max") in
        let* mx := as_int mx in Ok (tw <? mx)%Z
      else Ok false
    else Ok false in
  if ready then
    let* act := dindex kvs (s_ "action") in
    let* akvs := as_dict act in
    if py_eq (dget_default akvs (s_ "type") (VStr [])) (VStr (s_ "parameters")) then
      let* vals := as_dict (dget_default akvs (s_ "value") (VDict [])) in
      Ok (map (fun kv => [kv]) vals)
    else Ok []
  else Ok [].

(** Per-segment mutable state of the parameter walk. *)
Record pstate := {
  st_value : pyval;
  st_visible : bool;
  st_color : list (pystr * pyval);
  st_style : list pystr
}.

Definition set_value (st : pstate) (v : pyval) : pstate :=
  {| st_value := v; st_visible := st_visible st; st_color := st_color st; st_style := st_style st |}.
Definition set_visible (st : pstate) (b : bool) : pstate :=
  {| st_value := st_value st; st_visible := b; st_color := st_color st; st_style := st_style st |}.
Definition set_color (st : pstate) (c : list (pystr * pyval)) : pstate :=
  {| st_value := st_value st; st_visible := st_visible st; st_color := c; st_style := st_style st |}.
Definition set_style (st : pstate) (s : list pystr) : pstate :=
  {| st_value := st_value st; st_visible := st_visible st; st_color := st_color st; st_style := s |}.

(** One parameter [{pname: pvalue}]; returns the new state and the
    parameters an [if] splices in after the current position. *)
Definition apply_param (tw : Z) (level key : pystr) (pname : pystr) (pv : pyval)
  (st : pstate) : outcome (pstate * list param) :=
  let keep r := Ok (r, @nil param) in
  if str_eqb pname (s_ "align") then let* v := apply_align (st_value st) pv in keep (set_value st v)
  else if str_eqb pname (s_ "case") then let* v := apply_case (st_value st) pv in keep (set_value st v)
  else if str_eqb pname (s_ "filter") then let* v := apply_filter (st_value st) pv in keep (set_value st v)
  else if str_eqb pname (s_ "affix") then let* v := apply_affix (st_value st) pv in keep (set_value st v)
  else if str_eqb pname (s_ "truncate") then let* v := apply_truncate (st_value st) pv in keep (set_value st v)
  else if str_eqb pname (s_ "visible") then let* b := apply_visible tw (st_visible st) pv in keep (set_visible st b)
  else if str_eqb pname (s_ "color") then let* c := apply_color level key pv in keep (set_color st c)
  else if str_eqb pname (s_ "style") then let* s := apply_style (st_style st) pv in keep (set_style st s)
  else if str_eqb pname (s_ "pad") then let* v := apply_pad (st_value st) pv in keep (set_value st v)
  else if str_eqb pname (s_ "repeat") then let* v := apply_repeat (st_value st) pv in keep (set_value st v)
  else if str_eqb pname (s_ "if") then let* ins := apply_if tw pv in Ok (st, ins)
  else keep st.

(** Size bound on the worklist: an [if] is replaced by parameters taken from
    inside its own value, so the sum of the sizes strictly decreases. *)
Fixpoint pv_size (v : pyval) : nat :=
  match v with
  | VList l | VTuple l => S (list_sum (map pv_size l))
  | VDict kvs => S (list_sum (map (fun kv => S (pv_size (snd kv))) kvs))
  | _ => 1
  end.

Definition param_size (p : param) : nat := list_sum (map (fun kv => S (pv_size (snd kv))) p).

Definition params_fuel (ps : list param) : nat := S (list_sum (map param_size ps)).

(** [for parameter in parameters] with [parameters.insert(i + j + 1, ...)]:
    the inserted parameters are visited right after the current one. *)
Fixpoint run_params (fuel : nat) (tw : Z) (level key : pystr) (ps : list param) (st : pstate)
  : outcome pstate :=
  match ps with
  | [] => Ok st
  | p :: rest =>
      match fuel with
      | O => Err OutOfFuel
      | S f =>
          match p with
          | [] => Err IndexError
          | [(pname, pv)] =>
              let* r := apply_param tw level key pname pv st in
              run_params f tw level key (snd r ++ rest) (fst r)
          | _ => Err Exception_
          end
      end
  end.

(** colorama codes: [Fore.X] is [30 + offset], [Back.X] is [40 + offset]. *)
Definition color_offsets : list (string * N) :=
  [("BLACK", 0); ("RED", 1); ("GREEN", 2); ("YELLOW", 3); ("BLUE", 4); ("MAGENTA", 5);
   ("CYAN", 6); ("WHITE", 7); ("RESET", 9); ("LIGHTBLACK_EX", 60); ("LIGHTRED_EX", 61);
   ("LIGHTGREEN_EX", 62); ("LIGHTYELLOW_EX", 63); ("LIGHTBLUE_EX", 64);
   ("LIGHTMAGENTA_EX", 65); ("LIGHTCYAN_EX", 66); ("LIGHTWHITE_EX", 67)]%string.

Fixpoint assoc_n (l : list (string * N)) (k : pystr) : option N :=
  match l with
  | [] => None
  | (k', v) :: r => if str_eqb k (s_ k') then Some v else assoc_n r k
  end.

(** [getattr(Fore, name, "")] ([base] 30) and [getattr(Back, name, "")] ([base] 40). *)
Definition colorama_code (base : N) (name : pystr) : pystr :=
  match assoc_n color_offsets name with
  | Some o => sgr (n_to_dec (base + o))
  | None => []
  end.

Definition RESET_ALL : pystr := sgr (s_ "0").

(** [int(x / 255 * 5)], the division read over the rationals. *)
Definition quant (x : Z) : Z := Z.quot (5 * x) 255.

Definition color_index (r g b : Z) : Z := (16 + 36 * quant r + 6 * quant g + quant b)%Z.

(** [rgb_to_ansi] *)
Definition rgb_to_ansi (r g b : pyval) (fg : bool) : outcome pystr :=
  let* r := as_int r in let* g := as_int g in let* b := as_int b in
  Ok (sgr ((if fg then s_ "38" else s_ "48") ++ s_ ";5;" ++ z_to_dec (color_index r g b))).

Definition color_code (fg : bool) (c : pyval) : outcome pystr :=
  match c with
  | VTuple [r; g; b] => rgb_to_ansi r g b fg
  | VStr s => Ok (colorama_code (if fg then 30 else 40) (upper s))
  | _ => Ok []
  end.

(** [colorize] *)
Definition colorize (value : pyval) (color : list (pystr * pyval)) (style : list pystr)
  : outcome pystr :=
  let* fg := color_code true (dget_default color (s_ "foreground") VNone) in
  let* bg := color_code false (dget_default color (s_ "background") VNone) in
  Ok (fg ++ bg ++ List.concat style ++ py_str value ++ RESET_ALL).

(** Logger state read by [__define_timestamp]: [clock fmt] is
    [datetime.datetime.now().strftime(fmt)] at the instant of the call. *)
Record env := {
  clock : pystr -> pystr;
  ts_format : pystr;                    (** [rs_timestamps["format"]] *)
  always_show : bool;                   (** [rs_timestamps["always_show"]] *)
  previous_timestamp : option pystr     (** [_previous_timestamp] ([None] is Python's [None]) *)
}.

Definition define_timestamp (e : env) (no_blank : bool) (format : option pystr) : pystr :=
  let f := match format with Some f => f | None => ts_format e end in
  let t := clock e f in
  if no_blank then t
  else if match previous_timestamp e with
          | Some p => str_eqb (clock e (ts_format e)) p
          | None => false
          end && negb (always_show e)
  then [ESC; 91] ++ n_to_dec (N.of_nat (List.length (clock e f))) ++ [67]
  else t.

Definition HMS : pystr := s_ "%H:%M:%S".

(** The timestamp as [__log] puts it in the context. *)
Definition context_timestamp (e : env) (tw : Z) : pystr :=
  if (85 <? tw)%Z then define_timestamp e false None else define_timestamp e false (Some HMS).

(** The un-blanked timestamp counted for a [timestamp] segment. *)
Definition ts_unblanked (e : env) (tw : Z) : pystr :=
  if (85 <? tw)%Z then define_timestamp e true None else define_timestamp e true (Some HMS).

Record segment := {
  seg_type : pystr;
  seg_value : pystr;
  seg_params : list param
}.

Fixpoint ctx_get (ctx : list (pystr * pystr)) (k : pystr) : pystr :=
  match ctx with
  | [] => []
  | (k', v) :: r => if str_eqb k k' then v else ctx_get r k
  end.

Definition init_state (v : pyval) : pstate :=
  {| st_value := v; st_visible := true; st_color := []; st_style := [] |}.

(** One iteration of [for segment in log_line]: the emitted text and the
    amount added to [__prompt_length]. *)
Definition render_segment (e : env) (tw : Z) (ctx : list (pystr * pystr)) (level : pystr)
  (seg : segment) : outcome (pystr * nat) :=
  let key := seg_value seg in
  let* st :=
    if str_eqb (seg_type seg) (s_ "template") then
      run_params (params_fuel (seg_params seg)) tw level key (seg_params seg)
                 (init_state (VStr (ctx_get ctx key)))
    else Ok (init_state (VStr key)) in
  let value := if st_visible st then st_value st else VStr [] in
  let* add :=
    if str_eqb key (s_ "timestamp") then Ok (List.length (ts_unblanked e tw))
    else let* s := as_str value in Ok (List.length (remove_ansi s)) in
  let* out := colorize value (st_color st) (st_style st) in
  Ok (out, add).

Fixpoint render_segments (e : env) (tw : Z) (ctx : list (pystr * pystr)) (level : pystr)
  (segs : list segment) (line : pystr) (plen : nat) : outcome (pystr * nat) :=
  match segs with
  | [] => Ok (line, plen)
  | seg :: r =>
      let* res := render_segment e tw ctx level seg in
      render_segments e tw ctx level r (line ++ fst res) (plen + snd res)
  end.

(** [__parse_log_line]: the rendered line and [__prompt_length]. *)
Definition parse_log_line (e : env) (tw : Z) (ctx : list (pystr * pystr)) (level : pystr)
  (fmt : list segment) : outcome (pystr * nat) :=
  match fmt with
  | [] => Err Exception_
  | _ => render_segments e tw ctx level fmt [] 0
  end.

(* ------------------------------------------------------------------ *)
(** ** [FluxLogger.__sanitize_unsafe_objects]

    Python objects live in a heap so that containers may share or contain
    themselves.  The recursion budget [depth] stands for Python's recursion
    limit: running out is [RecursionError].  [repr] of an unsupported
    object runs its [__repr__], which may raise; one that returns a
    non-string makes [repr] raise [TypeError]. *)

Definition addr := nat.

Inductive pyobj :=
| OStr (s : pystr)
| OInt (z : Z)
| OFloat (repr : pystr)
| OBool (b : bool)
| ONone
| OList (xs : list addr)
| OTuple (xs : list addr)
| ODict (kvs : list (addr * addr))    (** key object, value object *)
| OOther (repr : outcome pystr).     (** any other object, with the outcome of [repr] on it *)

Definition heap := addr -> pyobj.

(** Sanitized values: [SObj a] is the original object [a] passed through;
    containers are rebuilt; [SStr] is a new (tagged) string. *)
Inductive sval :=
| SObj (a : addr)
| SStr (s : pystr)
| SList (l : list sval)
| STuple (l : list sval)
| SDict (kvs : list (addr * sval)).

Fixpoint all_ok {A} (l : list (outcome A)) : outcome (list A) :=
  match l with
  | [] => Ok []
  | x :: r => let* a := x in let* rs := all_ok r in Ok (a :: rs)
  end.

Fixpoint sanitize (depth : nat) (tag : pystr) (h : heap) (a : addr) : outcome sval :=
  match depth with
  | O => Err RecursionLimit
  | S d =>
      match h a with
      | OStr _ | OInt _ | OFloat _ | OBool _ => Ok (SObj a)
      | OList xs => let* l := all_ok (map (sanitize d tag h) xs) in Ok (SList l)
      | ODict kvs =>
          let* vs := all_ok (map (fun kv => sanitize d tag h (snd kv)) kvs) in
          Ok (SDict (combine (map fst kvs) vs))
      | OTuple xs => let* l := all_ok (map (sanitize d tag h) xs) in Ok (STuple l)
      | ONone => Ok (SStr (tag ++ s_ "None"))
      | OOther r => let* s := r in Ok (SStr (tag ++ s))
      end
  end.



(* ------------------------------------------------------------------ *)
(** ** Predicates used by the statements *)

(** Integers written directly inside tuples (the RGB triples of [color])
    are non-negative, everywhere inside a configuration value. *)
Fixpoint pv_ok (v : pyval) : bool :=
  match v with
  | VTuple l =>
      forallb (fun x => match x with VInt z => (0 <=? z)%Z | _ => true end) l
      && forallb pv_ok l
  | VList l => forallb pv_ok l
  | VDict kvs => forallb (fun kv => pv_ok (snd kv)) kvs
  | _ => true
  end.

Definition dict_ok (kvs : list (pystr * pyval)) : bool := forallb (fun kv => pv_ok (snd kv)) kvs.

Definition params_ok (ps : list param) : bool := forallb dict_ok ps.



(* ------------------------------------------------------------------ *)
(** ** [FluxLogger.__init__]: merging the user's rules into the defaults

    The rule dicts are objects in a store: the top-level dicts map a
    category name to the address of its settings dict.
    [self.defaults.copy()] is shallow, so [self.rules] starts as a new
    top-level dict holding the very same category objects. *)

Definition store := addr -> list (pystr * pyval).

Definition store_set (h : store) (a : addr) (d : list (pystr * pyval)) : store :=
  fun x => if Nat.eqb x a then d else h x.

Fixpoint top_get (t : list (pystr * addr)) (k : pystr) : option addr :=
  match t with
  | [] => None
  | (k', a) :: r => if str_eqb k k' then Some a else top_get r k
  end.

(** [t[k] = a] on a top-level dict. *)
Fixpoint top_set (t : list (pystr * addr)) (k : pystr) (a : addr) : list (pystr * addr) :=
  match t with
  | [] => [(k, a)]
  | (k', a') :: r => if str_eqb k k' then (k', a) :: r else (k', a') :: top_set r k a
  end.

(** [d.update(o)] *)
Definition dict_update (d o : list (pystr * pyval)) : list (pystr * pyval) :=
  fold_left (fun acc kv => dset acc (fst kv) (snd kv)) o d.

(** [for category, settings in rules.items(): ...], each user [settings]
    being a dict object of the store. *)
Fixpoint merge_rules (rules user : list (pystr * addr)) (h : store)
  : list (pystr * addr) * store :=
  match user with
  | [] => (rules, h)
  | (c, s) :: r =>
      match top_get rules c with
      | Some a => merge_rules rules r (store_set h a (dict_update (h a) (h s)))
      | None => merge_rules (top_set rules c s) r h
      end
  end.

(** [self.rules = self.defaults.copy()] and the merge; [self.defaults]
    keeps its own top-level dict, read through the returned store. *)
Definition init_rules (defaults user : list (pystr * addr)) (h : store)
  : list (pystr * addr) * store :=
  merge_rules defaults user h.

(* ------------------------------------------------------------------ *)
(** ** [FluxLogger.__log]: level and message filtering *)

(** [self.__levels]: each level's name and number. *)
Definition levels : list (string * Z) :=
  [("debug", 1%Z); ("info", 0%Z); ("success", 2%Z); ("warning", 3%Z); ("error", 4%Z);
   ("critical", (-1)%Z)]%string.

Fixpoint assoc_z (l : list (string * Z)) (k : pystr) : option Z :=
  match l with
  | [] => None
  | (k', v) :: r => if str_eqb k (s_ k') then Some v else assoc_z r k
  end.

(** What the first part of [__log] does with a message: drop it (one of
    the [return]s), go on to render it, or raise. *)
Inductive gate := GDrop | GPass | GRaise (e : exc) | GNameError.

(** [if self.__levels[level]["level"] != -1: ...]; [true] means [return]. *)
Definition min_level_check (min_level : pyval) (cur : Z) : outcome bool :=
  if (cur =? -1)%Z then Ok false
  else match min_level with
       | VStr m =>
           match assoc_z levels m with
           | Some ml => Ok (cur <? ml)%Z
           | None => Err KeyError
           end
       | _ => let* ml := as_int min_level in Ok (cur <? ml)%Z
       end.

(** [[substring.lower() for substring in l]] *)
Definition lower_all (l : list pyval) : outcome (list pystr) :=
  all_ok (map (fun v => let* s := str_method v in Ok (lower s)) l).

(** The two [any(sub in message.lower() for sub in ...)] tests.  They run
    before [message] is assigned further down in [__log]: as soon as the
    generator yields a first [sub], reading [message] raises [NameError]. *)
Definition message_filters (exclude include : list pyval) : gate :=
  match lower_all exclude with
  | Err e => GRaise e
  | Ok (_ :: _) => GNameError
  | Ok [] =>
      match include with
      | [] => GPass
      | _ =>
          match lower_all include with
          | Err e => GRaise e
          | Ok [] => GDrop
          | Ok (_ :: _) => GNameError
          end
      end
  end.

Definition log_gate_level (min_level : pyval) (exclude include : list pyval) (cur : Z) : gate :=
  match min_level_check min_level cur with
  | Err e => GRaise e
  | Ok true => GDrop
  | Ok false => message_filters exclude include
  end.

(** An unknown level is reported by [self.__log("error", ...)], which runs
    the same filters with the level [error], and the call returns. *)
Definition log_gate (min_level : pyval) (exclude include : list pyval) (level : pystr) : gate :=
  match assoc_z levels level with
  | Some cur => log_gate_level min_level exclude include cur
  | None =>
      match assoc_z levels (s_ "error") with
      | Some cur => log_gate_level min_level exclude include cur
      | None => GRaise KeyError
      end
  end.

(** The [context] dict [__log] passes to [__parse_log_line]. *)
Definition log_context (e : env) (tw : Z) (file_name wrapping_func line_number display : pystr)
  : list (pystr * pystr) :=
  [(s_ "timestamp", context_timestamp e tw); (s_ "filename", file_name);
   (s_ "wrapfunc", wrapping_func); (s_ "linenum", line_number); (s_ "level", upper display)].

Fixpoint ctx_lookup (ctx : list (pystr * pystr)) (k : pystr) : outcome pystr :=
  match ctx with
  | [] => Err KeyError
  | (k', v) :: r => if str_eqb k k' then Ok v else ctx_lookup r k
  end.

(** [str.replace(old, new)] *)
Fixpoint replace_ne (fuel : nat) (old new s : pystr) : pystr :=
  match fuel with
  | O => s
  | S f =>
      match s with
      | [] => []
      | c :: r =>
          if is_prefix old s then new ++ replace_ne f old new (skipn (List.length old) s)
          else c :: replace_ne f old new r
      end
  end.

Definition py_replace (s old new : pystr) : pystr :=
  match old with
  | [] => new ++ flat_map (fun c => c :: new) s
  | _ => replace_ne (S (List.length s)) old new s
  end.

(** [__define_m_widget] *)
Definition define_m_widget (content : pystr) (space : Z) : pystr :=
  if (Z.of_nat (List.length content) <=? space)%Z then content else [].

(** The chain of [if self.rs_metadata["include_..."]] blocks: each flag
    with its widget text, in the order of the source. *)
Fixpoint add_widgets (ml : Z) (ws : list (bool * pystr)) (meta : pystr) : pystr :=
  match ws with
  | [] => meta
  | (flag, content) :: r =>
      add_widgets ml r
        (if flag then define_m_widget content (ml - Z.of_nat (List.length meta)) ++ meta
         else meta)
  end.

(** The [### METADATA ###] block of [__log]. *)
Definition metadata_block (e : env) (show : bool) (tw : Z) (ctx : list (pystr * pystr))
  (log_line : pystr) (widgets : list (bool * pystr)) : outcome pystr :=
  if show then
    let* tms := ctx_lookup ctx (s_ "tms") in
    let ml := (tw - Z.of_nat (List.length
                 (remove_ansi (py_replace log_line tms (define_timestamp e true None)))))%Z in
    let meta := add_widgets ml widgets [] in
    let* padded := rjust meta (VInt ml) (VStr (s_ " ")) in
    Ok (RESET_ALL ++ sgr (s_ "2") ++ padded)
  else Ok [].

(** The end of [__log]: [lines = self.__wrap_text(message, ...)], then
    [len(lines)] and [len(lines[-1])]. *)
Definition log_wrap (message : pystr) (space : Z) : outcome (list pystr * nat * nat) :=
  let lines := wrap_text message space in
  match rev lines with
  | [] => Err IndexError
  | l :: _ => Ok (lines, List.length lines, List.length l)
  end.

(** Non-whitespace characters, the text [__wrap_text] must keep. *)
Definition not_space (c : pychar) : bool := negb (is_space c).

(** SGR parameter bytes, and the codes [colorize] may emit before the text. *)
Definition sgr_ok (ps : pystr) : bool := forallb (in_range 48 63) ps.

Definition code_ok (c : pystr) : Prop := c = [] \/ exists ps, c = sgr ps /\ sgr_ok ps = true.

(** Colour dict and style list of a segment as [colorize] receives them. *)
Definition state_ok (st : pstate) : Prop :=
  dict_ok (st_color st) = true /\ Forall code_ok (st_style st).

(* ------------------------------------------------------------------ *)
(** ** Concrete inputs *)

(** A clock stopped at 2026-10-17 12:00:00 whose previous line was logged
    in the same second, with [always_show] off. *)
Definition e0 : env := {|
  clock := fun f => if str_eqb f HMS then s_ "12:00:00" else s_ "2026-10-17 12:00:00";
  ts_format := s_ "%Y-%m-%d %H:%M:%S";
  always_show := false;
  previous_timestamp := Some (s_ "2026-10-17 12:00:00")
|}.

Definition static (s : string) : segment :=
  {| seg_type := s_ "static"; seg_value := s_ s; seg_params := [] |}.

Definition template (key : string) (ps : list param) : segment :=
  {| seg_type := s_ "template"; seg_value := s_ key; seg_params := ps |}.

Definition align_left3 : param :=
  [(s_ "align", VDict [(s_ "alignment", VStr (s_ "left")); (s_ "width", VInt 3);
                       (s_ "fillchar", VStr (s_ " "))])].

(** [{linenum: "7"}] and the template [Static(" "), Template(linenum, [align])]. *)
Definition ctx7 : list (pystr * pystr) := [(s_ "linenum", s_ "7")].
Definition fmt7 : list segment := [static " "; template "linenum" [align_left3]].




Definition h_none : heap := fun _ => ONone.

(** [{object(): 1}]: the key object 1 has no literal form. *)
Definition h_dict : heap :=
  fun x => match x with
           | 0%nat => ODict [(1%nat, 2%nat)]
           | 1%nat => OOther (Ok (s_ "<object object at 0x7f>"))
           | _ => OInt 1
           end.


(** [if] with a breakpoint 0..200 that splices in [{case: 3}]. *)
Definition if_case_int : pyval :=
  VDict [(s_ "condition", VDict [(s_ "type", VStr (s_ "breakpoint"));
                                 (s_ "value", VDict [(s_ "min", VInt 0); (s_ "max", VInt 200)])]);
         (s_ "action", VDict [(s_ "type", VStr (s_ "parameters"));
                              (s_ "value", VDict [(s_ "case", VInt 3)])])].

(** [filter{mode: include, items: ["a", "b"], replace: "X"}] *)
Definition filter_include_ab : pyval :=
  VDict [(s_ "mode", VStr (s_ "include")); (s_ "items", VList [VStr (s_ "a"); VStr (s_ "b")]);
         (s_ "replace", VStr (s_ "X"))].

(** The quantization of the claim: [round(x / 255 * 5)], rounding to the
    nearest integer (no integer [x] is a tie). *)
Definition quant_round (x : Z) : Z := Z.div (10 * x + 255) 510.

Definition color_index_round (r g b : Z) : Z :=
  (16 + 36 * quant_round r + 6 * quant_round g + quant_round b)%Z.

(** Rule dicts for [FluxLogger(rules)]: the defaults' [filtering] and
    [output] categories at addresses 0 and 2, the user's [filtering]
    override at address 1 and a new [extra] category at address 3. *)
Definition rules_store : store := fun x =>
  match x with
  | 0%nat => [(s_ "min_level", VInt 0); (s_ "exclude_messages", VList [])]
  | 1%nat => [(s_ "min_level", VStr (s_ "warning"))]
  | 2%nat => [(s_ "output_to_file", VBool false)]
  | 3%nat => [(s_ "enabled", VBool true)]
  | _ => []
  end.

(** The user's [{"filtering": d, "output": d}]: one object for two categories. *)
Definition user_rules_shared : list (pystr * addr) :=
  [(s_ "filtering", 1%nat); (s_ "output", 1%nat)].

Definition defaults_rules : list (pystr * addr) :=
  [(s_ "filtering", 0%nat); (s_ "output", 2%nat)].

Definition user_rules : list (pystr * addr) :=
  [(s_ "filtering", 1%nat); (s_ "extra", 3%nat)].

(* ================================================================== *)
(** * Proofs *)

(** ** The escape scanner *)

Section ScanFacts.
Variable delta : nat -> pychar -> trans.
Hypothesis delta_esc : forall p, delta p ESC = Fail.

Lemma step_normal_other : forall c, c <> ESC -> step_normal c = ([c], Normal).
Proof. intros c Hc. unfold step_normal. now rewrite (proj2 (N.eqb_neq c ESC) Hc). Qed.

Lemma step_normal_esc : step_normal ESC = ([], Pend [ESC] 0%nat).
Proof. reflexivity. Qed.

Lemma scan_esc : forall st b,
  scan delta st (ESC :: b) = flush st ++ scan delta Normal (ESC :: b).
Proof.
  intros [|buf p] b; cbn [scan step flush]; rewrite ?delta_esc, ?step_normal_esc.
  - reflexivity.
  - now rewrite app_nil_r.
Qed.

(** A match never runs across an ESC. *)
Lemma scan_app_esc : forall a st b,
  scan delta st (a ++ ESC :: b) = scan delta st a ++ scan delta Normal (ESC :: b).
Proof.
  induction a as [|c a IH]; intros st b.
  - apply scan_esc.
  - simpl. destruct (step delta st c) as [e st']. rewrite IH. now rewrite app_assoc.
Qed.

Lemma scan_pend_le : forall b buf p,
  (List.length (scan delta (Pend buf p) b)
   <= List.length buf + List.length (scan delta Normal b))%nat.
Proof.
  induction b as [|c b IH]; intros buf p; simpl.
  - lia.
  - destruct (N.eqb_spec c ESC) as [->|Hc].
    + rewrite delta_esc, step_normal_esc. simpl. rewrite app_nil_r, length_app. lia.
    + rewrite (step_normal_other c Hc). simpl.
      destruct (delta p c) as [p'| |]; simpl.
      * specialize (IH (buf ++ [c]) p'). rewrite length_app in IH. simpl in *. lia.
      * lia.
      * rewrite !length_app. simpl. lia.
Qed.

(** Visible length is subadditive under concatenation. *)
Lemma scan_app_le : forall a st b,
  (List.length (scan delta st (a ++ b))
   <= List.length (scan delta st a) + List.length (scan delta Normal b))%nat.
Proof.
  induction a as [|c a IH]; intros st b; simpl.
  - destruct st as [|buf p]; simpl; [lia | apply scan_pend_le].
  - destruct (step delta st c) as [e st']. rewrite !length_app. specialize (IH st' b). lia.
Qed.

Hypothesis delta_space : forall p c, is_space c = true -> delta p c <> Done.

Lemma scan_pend_space : forall b buf p,
  Forall (fun c => is_space c = true) b ->
  (List.length buf <= List.length (scan delta (Pend buf p) b))%nat.
Proof.
  induction b as [|c b IH]; intros buf p Hb; simpl.
  - lia.
  - inversion Hb as [|? ? Hc Hb']; subst.
    destruct (delta p c) as [p'| |] eqn:D.
    + specialize (IH (buf ++ [c]) p' Hb'). rewrite length_app in IH. simpl in *. lia.
    + exfalso. exact (delta_space p c Hc D).
    + destruct (step_normal c) as [e st']. rewrite !length_app. lia.
Qed.

(** Appending whitespace never shortens the visible text. *)
Lemma scan_app_space : forall a st b,
  Forall (fun c => is_space c = true) b ->
  (List.length (scan delta st a) <= List.length (scan delta st (a ++ b)))%nat.
Proof.
  induction a as [|c a IH]; intros st b Hb; simpl.
  - destruct st as [|buf p]; simpl; [lia | now apply scan_pend_space].
  - destruct (step delta st c) as [e st']. rewrite !length_app. specialize (IH st' b Hb). lia.
Qed.
End ScanFacts.

Lemma delta_remove_esc : forall p, delta_remove p ESC = Fail.
Proof. intros [|[|p]]; reflexivity. Qed.

Lemma delta_wrap_esc : forall p, delta_wrap p ESC = Fail.
Proof. intros [|[|p]]; reflexivity. Qed.

Lemma in_range_true : forall lo hi c, in_range lo hi c = true <-> lo <= c <= hi.
Proof.
  intros. unfold in_range. rewrite andb_true_iff, !N.leb_le. tauto.
Qed.

Lemma is_space_range : forall c, is_space c = true -> c < 64 \/ 126 < c.
Proof.
  intros c H. unfold is_space in H.
  repeat rewrite orb_true_iff in H.
  repeat match goal with
         | H : _ \/ _ |- _ => destruct H as [H|H]
         end;
  first [ apply in_range_true in H | apply N.eqb_eq in H ]; lia.
Qed.

Lemma delta_wrap_space : forall p c, is_space c = true -> delta_wrap p c <> Done.
Proof.
  intros p c Hs. apply is_space_range in Hs.
  assert (Hf : in_range 64 126 c = false) by (unfold in_range; apply andb_false_iff;
    destruct Hs; [left | right]; apply N.leb_gt; lia).
  assert (Hf1 : in_range 64 90 c = false) by (unfold in_range; apply andb_false_iff;
    destruct Hs; [left | right]; apply N.leb_gt; lia).
  assert (Hf2 : in_range 92 95 c = false) by (unfold in_range; apply andb_false_iff;
    destruct Hs; [left | right]; apply N.leb_gt; lia).
  destruct p as [|[|p]]; simpl; rewrite ?Hf, ?Hf1, ?Hf2; simpl;
  repeat match goal with |- context [if ?b then _ else _] => destruct b end; discriminate.
Qed.

Lemma str_eqb_eq : forall a b, str_eqb a b = true <-> a = b.
Proof.
  induction a as [|x a IH]; intros [|y b]; simpl; split; intro H; try congruence.
  - apply andb_true_iff in H as [H1 H2]. apply N.eqb_eq in H1. apply IH in H2. congruence.
  - injection H as -> ->. apply andb_true_iff. split; [apply N.eqb_refl | now apply IH].
Qed.

(** ** SGR codes are removed by [__remove_ansi] *)


Lemma scan_remove_params : forall ps buf rest,
  sgr_ok ps = true ->
  scan delta_remove (Pend buf 1) (ps ++ 109 :: rest) = scan delta_remove Normal rest.
Proof.
  induction ps as [|c ps IH]; intros buf rest H.
  - reflexivity.
  - simpl in H. apply andb_true_iff in H as [Hc H].
    simpl. rewrite Hc. simpl. now apply IH.
Qed.

Lemma remove_ansi_sgr : forall ps rest,
  sgr_ok ps = true -> remove_ansi (sgr ps ++ rest) = remove_ansi rest.
Proof.
  intros ps rest H. unfold remove_ansi, sgr. rewrite <- !app_assoc.
  change (scan delta_remove (Pend [ESC; 91] 1) (ps ++ [109] ++ rest) = scan delta_remove Normal rest).
  now apply scan_remove_params.
Qed.

Lemma remove_ansi_code : forall c rest, code_ok c -> remove_ansi (c ++ rest) = remove_ansi rest.
Proof.
  intros c rest [->|(ps & -> & H)]; [reflexivity | now apply remove_ansi_sgr].
Qed.

Lemma remove_ansi_concat : forall l rest,
  Forall code_ok l -> remove_ansi (List.concat l ++ rest) = remove_ansi rest.
Proof.
  induction l as [|c l IH]; intros rest H; [reflexivity|].
  inversion H; subst. simpl. rewrite <- app_assoc, remove_ansi_code by assumption. auto.
Qed.

Lemma remove_ansi_reset : forall s, remove_ansi (s ++ RESET_ALL) = remove_ansi s.
Proof.
  intros s. unfold remove_ansi, RESET_ALL, sgr. simpl.
  rewrite (scan_app_esc delta_remove delta_remove_esc). rewrite app_nil_r. reflexivity.
Qed.

Lemma n_digits_ok : forall fuel n acc, sgr_ok acc = true -> sgr_ok (n_digits fuel n acc) = true.
Proof.
  induction fuel as [|f IH]; intros n acc H; [exact H|].
  assert (Hd : in_range 48 63 (48 + n mod 10) = true).
  { apply in_range_true. assert (n mod 10 < 10) by (apply N.mod_lt; discriminate).
    set (m := n mod 10) in *. clearbody m. lia. }
  cbn [n_digits]. destruct (n / 10 =? 0); [| apply IH];
    unfold sgr_ok in *; cbn [forallb]; now rewrite Hd, H.
Qed.

Lemma n_to_dec_ok : forall n, sgr_ok (n_to_dec n) = true.
Proof. intros. now apply n_digits_ok. Qed.

Lemma as_int_nonneg : forall x z,
  (match x with VInt z => (0 <=? z)%Z | _ => true end) = true -> as_int x = Ok z -> (0 <= z)%Z.
Proof.
  intros [| b | z' | s | l | l | l] z H E; simpl in E; try discriminate.
  - injection E as <-. destruct b; lia.
  - injection E as <-. now apply Z.leb_le.
Qed.

Lemma quant_nonneg : forall x, (0 <= x)%Z -> (0 <= quant x)%Z.
Proof. intros. unfold quant. apply Z.quot_pos; lia. Qed.

Lemma color_code_ok : forall fg c code, pv_ok c = true -> color_code fg c = Ok code -> code_ok code.
Proof.
  intros fg c code Hok H. unfold code_ok.
  destruct c as [| b | z | s | l | l | kvs]; simpl in H; try (injection H as <-; now left).
  - unfold colorama_code in H. injection H as <-.
    match goal with |- context [match ?x with Some _ => _ | None => _ end] => destruct x end;
      [right | now left].
    eexists; split; [reflexivity | apply n_to_dec_ok].
  - destruct l as [|r [|g [|b [|x l]]]]; try (injection H as <-; now left).
    simpl in Hok. rewrite !andb_true_r in Hok.
    apply andb_true_iff in Hok as [Hok _].
    apply andb_true_iff in Hok as [Hr Hok]. apply andb_true_iff in Hok as [Hg Hb].
    unfold rgb_to_ansi in H.
    destruct (as_int r) as [zr|] eqn:Er; simpl in H; [|discriminate].
    destruct (as_int g) as [zg|] eqn:Eg; simpl in H; [|discriminate].
    destruct (as_int b) as [zb|] eqn:Eb; simpl in H; [|discriminate].
    injection H as <-. right. eexists; split; [reflexivity|].
    pose proof (as_int_nonneg r zr Hr Er). pose proof (as_int_nonneg g zg Hg Eg).
    pose proof (as_int_nonneg b zb Hb Eb).
    assert (Hi : (0 <= color_index zr zg zb)%Z).
    { unfold color_index. pose proof (quant_nonneg zr). pose proof (quant_nonneg zg).
      pose proof (quant_nonneg zb). lia. }
    unfold sgr_ok. rewrite !forallb_app. apply andb_true_iff; split; [destruct fg; reflexivity|].
    apply andb_true_iff; split; [reflexivity|].
    unfold z_to_dec. destruct (Z.ltb_spec (color_index zr zg zb) 0); [lia|]. apply n_to_dec_ok.
Qed.

(** ** Colour and style state stay well formed along the parameter walk *)


Lemma pv_ok_dict : forall kvs, pv_ok (VDict kvs) = dict_ok kvs.
Proof. reflexivity. Qed.

Lemma dget_ok : forall kvs k v, dict_ok kvs = true -> dget kvs k = Some v -> pv_ok v = true.
Proof.
  induction kvs as [|[k' v'] kvs IH]; intros k v H E; simpl in *; [discriminate|].
  apply andb_true_iff in H as [H1 H2].
  destruct (str_eqb k k'); [injection E as <-; exact H1 | eauto].
Qed.

Lemma dget_default_ok : forall kvs k d,
  dict_ok kvs = true -> pv_ok d = true -> pv_ok (dget_default kvs k d) = true.
Proof.
  intros kvs k d H Hd. unfold dget_default. destruct (dget kvs k) eqn:E; eauto using dget_ok.
Qed.

Lemma dindex_ok : forall kvs k v, dict_ok kvs = true -> dindex kvs k = Ok v -> pv_ok v = true.
Proof.
  intros kvs k v H E. unfold dindex in E. destruct (dget kvs k) eqn:D; [|discriminate].
  injection E as <-. eauto using dget_ok.
Qed.

Lemma dset_ok : forall kvs k v, dict_ok kvs = true -> pv_ok v = true -> dict_ok (dset kvs k v) = true.
Proof.
  induction kvs as [|[k' v'] kvs IH]; intros k v H Hv; simpl in *.
  - now rewrite Hv.
  - apply andb_true_iff in H as [H1 H2].
    destruct (str_eqb k k'); simpl.
    + now rewrite Hv, H2.
    + rewrite H1. now apply IH.
Qed.

Lemma dsetdefault_ok : forall kvs k v,
  dict_ok kvs = true -> pv_ok v = true -> dict_ok (dsetdefault kvs k v) = true.
Proof.
  intros kvs k v H Hv. unfold dsetdefault. destruct (dget kvs k); [exact H|].
  unfold dict_ok in *. rewrite forallb_app, H. simpl. now rewrite Hv.
Qed.

Lemma fold_setdefault_ok : forall dkvs kvs,
  dict_ok kvs = true -> dict_ok dkvs = true ->
  dict_ok (fold_left (fun acc kv => dsetdefault acc (fst kv) (snd kv)) dkvs kvs) = true.
Proof.
  induction dkvs as [|[k v] dkvs IH]; intros kvs H Hd; simpl in *; [exact H|].
  apply andb_true_iff in Hd as [H1 H2]. apply IH; [now apply dsetdefault_ok | exact H2].
Qed.

Lemma return_values_ok : forall v d r,
  pv_ok v = true -> pv_ok d = true -> return_values v d = Ok r -> pv_ok r = true.
Proof.
  intros v d r Hv Hd E. unfold return_values in E.
  destruct (negb (pytype_eqb (type_of v) (type_of d))); [discriminate|].
  destruct v; try (injection E as <-; exact Hv).
  - destruct (Nat.ltb _ 1); injection E as <-; assumption.
  - destruct d; try (injection E as <-; exact Hv).
    injection E as <-. apply fold_setdefault_ok; assumption.
Qed.

Lemma as_dict_ok : forall v kvs, pv_ok v = true -> as_dict v = Ok kvs -> dict_ok kvs = true.
Proof. intros [] r H E; simpl in E; try discriminate. now injection E as <-. Qed.

(** Peel one [let*] off a hypothesis [bind m k = Ok r], naming the result. *)
Ltac peel H x E :=
  match type of H with
  | bind ?m _ = Ok _ => destruct m as [x|] eqn:E; cbn [bind] in H; [|discriminate]
  end.

Lemma apply_color_ok : forall level key pv c,
  pv_ok pv = true -> apply_color level key pv = Ok c -> dict_ok c = true.
Proof.
  intros level key pv c Hp H. unfold apply_color in H.
  peel H v E1.
  assert (Hr : pv_ok v = true) by (eapply return_values_ok; [exact Hp | | exact E1]; reflexivity).
  peel H kvs E2. pose proof (as_dict_ok _ _ Hr E2) as Hk.
  peel H fg E3.
  destruct (py_eq _ _).
  - peel H col E4. injection H as <-. now apply dset_ok.
  - now injection H as <-.
Qed.

Lemma style_loop_ok : forall kvs codes style style',
  forallb (fun nc => sgr_ok (s_ (snd nc))) codes = true ->
  Forall code_ok style -> style_loop kvs codes style = Ok style' -> Forall code_ok style'.
Proof.
  intros kvs codes. induction codes as [|[name code] codes IH]; intros style style' Hc Hs H;
    simpl in *.
  - now injection H as <-.
  - apply andb_true_iff in Hc as [Hc1 Hc2].
    peel H b E. eapply IH; [exact Hc2 | | exact H].
    destruct (truthy b); [|exact Hs].
    apply Forall_app; split; [exact Hs|]. constructor; [|constructor].
    right. eexists; split; [reflexivity | exact Hc1].
Qed.

Lemma apply_style_ok : forall style pv style',
  Forall code_ok style -> apply_style style pv = Ok style' -> Forall code_ok style'.
Proof.
  intros style pv style' Hs H. unfold apply_style in H. peel H v E1. peel H kvs E2.
  eapply style_loop_ok; [ | exact Hs | exact H]; reflexivity.
Qed.

Lemma apply_if_ok : forall tw pv ins,
  pv_ok pv = true -> apply_if tw pv = Ok ins -> params_ok ins = true.
Proof.
  intros tw pv ins Hp H. unfold apply_if in H.
  peel H v E1.
  assert (Hr : pv_ok v = true) by (eapply return_values_ok; [exact Hp | | exact E1]; reflexivity).
  peel H kvs E2. pose proof (as_dict_ok _ _ Hr E2) as Hk.
  peel H cond E3. peel H ckvs E4. peel H ready E5.
  destruct ready; [|now injection H as <-].
  peel H act E6. pose proof (dindex_ok _ _ _ Hk E6) as Ha.
  peel H akvs E7. pose proof (as_dict_ok _ _ Ha E7) as Hak.
  destruct (py_eq (dget_default akvs _ _) _); [|now injection H as <-].
  peel H vals E8. injection H as <-.
  assert (Hv : dict_ok vals = true).
  { eapply as_dict_ok; [|exact E8]. apply dget_default_ok; [exact Hak | reflexivity]. }
  clear -Hv. induction vals as [|[k v] l IH]; [reflexivity|].
  unfold params_ok, dict_ok in *. simpl in *.
  apply andb_true_iff in Hv as [H1 H2]. rewrite H1, IH; auto.
Qed.

Lemma apply_param_ok : forall tw level key pname pv st st' ins,
  state_ok st -> pv_ok pv = true ->
  apply_param tw level key pname pv st = Ok (st', ins) ->
  state_ok st' /\ params_ok ins = true.
Proof.
  intros tw level key pname pv st st' ins [Hc Hs] Hp H. unfold apply_param in H.
  repeat match type of H with
  | (if ?b then _ else _) = _ => destruct b
  end;
  try (injection H as <- <-; split; [split; assumption | reflexivity]);
  match type of H with bind ?m _ = _ => destruct m as [x|] eqn:E; cbn [bind] in H; [|discriminate] end;
  injection H as <- <-;
  try (split; [split; assumption | reflexivity]).
  - split; [|reflexivity]. split; [exact (apply_color_ok _ _ _ _ Hp E) | exact Hs].
  - split; [|reflexivity]. split; [exact Hc | exact (apply_style_ok _ _ _ Hs E)].
  - split; [split; assumption | exact (apply_if_ok _ _ _ Hp E)].
Qed.

Lemma run_params_ok : forall fuel tw level key ps st st',
  state_ok st -> params_ok ps = true ->
  run_params fuel tw level key ps st = Ok st' -> state_ok st'.
Proof.
  induction fuel as [|f IH]; intros tw level key ps st st' Hst Hps H.
  - destruct ps; simpl in H; [injection H as <-; exact Hst | discriminate].
  - destruct ps as [|p rest]; simpl in H; [injection H as <-; exact Hst|].
    unfold params_ok in Hps. simpl in Hps. apply andb_true_iff in Hps as [Hp Hrest].
    destruct p as [|[pname pv] [|q p]]; try discriminate.
    destruct (apply_param tw level key pname pv st) as [[st1 ins]|] eqn:E; cbn [bind] in H;
      [|discriminate].
    unfold dict_ok in Hp. simpl in Hp. rewrite andb_true_r in Hp.
    destruct (apply_param_ok _ _ _ _ _ _ _ _ Hst Hp E) as [Hst1 Hins].
    eapply IH; [exact Hst1 | | exact H].
    unfold params_ok in *. cbn [snd]. rewrite forallb_app. apply andb_true_iff; split; assumption.
Qed.

Lemma colorize_strip : forall s color style out,
  dict_ok color = true -> Forall code_ok style ->
  colorize (VStr s) color style = Ok out -> remove_ansi out = remove_ansi s.
Proof.
  intros s color style out Hc Hs H. unfold colorize in H.
  destruct (color_code true _) as [fg|] eqn:Efg; cbn [bind] in H; [|discriminate].
  destruct (color_code false _) as [bg|] eqn:Ebg; cbn [bind] in H; [|discriminate].
  injection H as <-.
  apply color_code_ok in Efg; [|apply dget_default_ok; [exact Hc | reflexivity]].
  apply color_code_ok in Ebg; [|apply dget_default_ok; [exact Hc | reflexivity]].
  rewrite remove_ansi_code by exact Efg. rewrite remove_ansi_code by exact Ebg.
  rewrite remove_ansi_concat by exact Hs. simpl. apply remove_ansi_reset.
Qed.




(* ================================================================== *)
(** * Claims *)

(** ** Prompt-length accounting *)

Lemma str_eqb_refl : forall s, str_eqb s s = true.
Proof. intros s. now apply str_eqb_eq. Qed.

Lemma init_state_ok : forall v, state_ok (init_state v).
Proof. intros v. split; [reflexivity | constructor]. Qed.




(** ** Worked example *)

(** C2: [Static(" "), Template(linenum, [align{left, 3, " "}])] with
    [{linenum: "7"}] at width 100 renders [" 7  "] once the escape sequences
    are stripped, with prompt length 4 (for any logger state and level). *)
Theorem C2_align_example : forall e level, exists line,
  parse_log_line e 100 ctx7 level fmt7 = Ok (line, 4%nat) /\ remove_ansi line = s_ " 7  ".
Proof.
  intros e level. exists (s_ " " ++ RESET_ALL ++ s_ "7  " ++ RESET_ALL).
  split; vm_compute; reflexivity.
Qed.

(** ** Wrapping *)

Lemma lstrip_sp_split : forall l,
  exists w, l = w ++ lstrip_sp l /\ Forall (fun c => is_space c = true) w.
Proof.
  induction l as [|c l IH]; [exists []; split; [reflexivity | constructor]|].
  simpl. destruct (is_space c) eqn:Hc.
  - destruct IH as (w & Hw & Hs). exists (c :: w). split; [simpl; now f_equal | now constructor].
  - exists []. split; [reflexivity | constructor].
Qed.

Lemma rstrip_split : forall s,
  exists w, s = rstrip s ++ w /\ Forall (fun c => is_space c = true) w.
Proof.
  intros s. destruct (lstrip_sp_split (rev s)) as (w & Hw & Hs).
  exists (rev w). split.
  - unfold rstrip. rewrite <- rev_app_distr, <- Hw. symmetry. apply rev_involutive.
  - apply Forall_rev. exact Hs.
Qed.

Lemma visible_rstrip : forall s, (visible_length (rstrip s) <= visible_length s)%nat.
Proof.
  intros s. destruct (rstrip_split s) as (w & Hw & Hs). unfold visible_length, wrap_strip.
  rewrite Hw at 2. apply (scan_app_space delta_wrap delta_wrap_space). exact Hs.
Qed.

Lemma visible_app : forall a b,
  (visible_length (a ++ b) <= visible_length a + visible_length b)%nat.
Proof. intros a b. apply (scan_app_le delta_wrap delta_wrap_esc). Qed.

(** The loop invariant of [for word in words]: the current line is never
    visibly longer than its counter, and the counter exceeds [width] only
    when the current line is one token. *)
Lemma wrap_words_bound : forall width toks words cur curlen l,
  incl words toks ->
  (visible_length cur <= curlen)%nat ->
  ((Z.of_nat curlen <= width)%Z \/
   (In cur toks /\ curlen = visible_length cur /\ (width < Z.of_nat curlen)%Z)) ->
  In l (wrap_words width words cur curlen) ->
  (Z.of_nat (visible_length l) <= width)%Z \/
  exists tok, In tok toks /\ l = rstrip tok /\ (width < Z.of_nat (visible_length tok))%Z.
Proof.
  intros width toks words. induction words as [|w ws IH]; intros cur curlen l Hinc Hle Hinv Hl.
  - simpl in Hl. destruct (nonempty cur); [|contradiction].
    destruct Hl as [<-|[]]. pose proof (visible_rstrip cur).
    destruct Hinv as [Hw|(Hin & Heq & Hw)]; [left; lia|].
    right. exists cur. split; [exact Hin|]. split; [reflexivity | lia].
  - simpl in Hl. assert (Hw : In w toks) by (apply Hinc; left; reflexivity).
    assert (Hinc' : incl ws toks) by (intros x Hx; apply Hinc; right; exact Hx).
    destruct (Z.ltb_spec width (Z.of_nat (curlen + visible_length w))).
    + apply in_app_or in Hl as [Hl|Hl].
      * destruct (nonempty cur); [|contradiction].
        destruct Hl as [<-|[]]. pose proof (visible_rstrip cur).
        destruct Hinv as [Hw'|(Hin & Heq & Hw')]; [left; lia|].
        right. exists cur. split; [exact Hin|]. split; [reflexivity | lia].
      * eapply IH; [exact Hinc' | apply le_n | | exact Hl].
        destruct (Z.le_gt_cases (Z.of_nat (visible_length w)) width); [left; exact H0|].
        right. split; [exact Hw | split; [reflexivity | lia]].
    + eapply IH; [exact Hinc' | | left; exact H | exact Hl].
      pose proof (visible_app cur w). lia.
Qed.

(** C3: every line [__wrap_text] returns for a width of at least 1 has
    visible length at most [width], unless it is a single token of the
    input (right-stripped) whose own visible length exceeds [width]. *)
Theorem C3_wrap_width : forall text width l,
  (1 <= width)%Z -> In l (wrap_text text width) ->
  (Z.of_nat (visible_length l) <= width)%Z \/
  exists tok, In tok (flat_map tokens (split_nl text)) /\ l = rstrip tok /\
              (width < Z.of_nat (visible_length tok))%Z.
Proof.
  intros text width l Hw Hl. unfold wrap_text in Hl. apply in_flat_map in Hl as (line & Hline & Hl).
  eapply wrap_words_bound; [| | | exact Hl]; [| apply le_n | left; simpl; lia].
  intros x Hx. apply in_flat_map. exists line. split; assumption.
Qed.

Lemma C3_wrap_width_witness :
  (1 <= 3)%Z /\ In (s_ "aaaa") (wrap_text (s_ "aaaa bb") 3) /\
  ((Z.of_nat (visible_length (s_ "aaaa")) <= 3)%Z \/
   exists tok, In tok (flat_map tokens (split_nl (s_ "aaaa bb"))) /\ s_ "aaaa" = rstrip tok /\
               (3 < Z.of_nat (visible_length tok))%Z).
Proof.
  assert (H1 : (1 <= 3)%Z) by lia.
  assert (H2 : In (s_ "aaaa") (wrap_text (s_ "aaaa bb") 3)) by (vm_compute; left; reflexivity).
  split; [exact H1 | split; [exact H2 | exact (C3_wrap_width _ _ _ H1 H2)]].
Defined.

Lemma split_nl_nonempty : forall s, split_nl s <> [].
Proof.
  induction s as [|c s IH]; simpl; [discriminate|].
  destruct (c =? 10); [discriminate|]. destruct (split_nl s); discriminate.
Qed.

Lemma split_nl_app : forall a b, split_nl (a ++ 10 :: b) = split_nl a ++ split_nl b.
Proof.
  induction a as [|c a IH]; intros b; [reflexivity|].
  cbn [app split_nl]. rewrite IH. destruct (c =? 10); [reflexivity|].
  destruct (split_nl a) eqn:E; [now destruct (split_nl_nonempty a) | reflexivity].
Qed.

(** C7: [__wrap_text] gives no line for an empty line, also when it is the
    only line: the empty text wraps to no line at all, and its caller
    [__log] then raises [IndexError] on [len(lines[-1])].  An empty line
    among several contributes nothing, since the lines on either side of a
    newline wrap independently. *)
Theorem C7_empty_lines : forall width space a b,
  wrap_text [] width = [] /\ log_wrap [] space = Err IndexError /\
  wrap_line width [] = [] /\
  wrap_text (a ++ 10 :: b) width = wrap_text a width ++ wrap_text b width.
Proof.
  intros width space a b. split; [reflexivity | split; [reflexivity | split; [reflexivity|]]].
  unfold wrap_text. now rewrite split_nl_app, flat_map_app.
Qed.

(** ** The sanitizer *)

Lemma all_ok_total : forall {A B} (f : A -> outcome B) l,
  (forall x, In x l -> exists r, f x = Ok r) -> exists rs, all_ok (map f l) = Ok rs.
Proof.
  intros A B f l. induction l as [|x l IH]; intros H; [exists []; reflexivity|].
  destruct (H x (or_introl eq_refl)) as [r Hr].
  destruct IH as [rs Hrs]; [intros y Hy; apply H; right; exact Hy|].
  exists (r :: rs). simpl. now rewrite Hr, Hrs.
Qed.

Lemma all_ok_length : forall {A B} (f : A -> outcome B) l rs,
  all_ok (map f l) = Ok rs -> List.length rs = List.length l.
Proof.
  intros A B f l. induction l as [|x l IH]; intros rs H; simpl in H.
  - now injection H as <-.
  - destruct (f x); cbn [bind] in H; [|discriminate].
    destruct (all_ok (map f l)) eqn:E; cbn [bind] in H; [|discriminate].
    injection H as <-. simpl. f_equal. now apply IH.
Qed.

Lemma map_fst_combine : forall {A B} (l1 : list A) (l2 : list B),
  List.length l1 = List.length l2 -> map fst (combine l1 l2) = l1.
Proof.
  intros A B l1. induction l1 as [|x l1 IH]; intros [|y l2] H; simpl in *; try discriminate;
    [reflexivity|]. f_equal. apply IH. now injection H.
Qed.





(** C8 (as amended): [None] is not one of the pass-through types
    [str, int, float, bool]; it becomes the tagged string
    [repr_id + "None"]. *)
Theorem C8_sanitize_none : forall depth tag h a,
  h a = ONone -> (0 < depth)%nat -> sanitize depth tag h a = Ok (SStr (tag ++ s_ "None")).
Proof.
  intros [|d] tag h a Ha Hd; [lia|]. simpl. now rewrite Ha.
Qed.

Lemma C8_sanitize_none_witness : sanitize 1 (s_ "#") h_none 0%nat = Ok (SStr (s_ "#None")).
Proof. exact (C8_sanitize_none 1 (s_ "#") h_none 0%nat eq_refl ltac:(lia)). Defined.

(** C8 counterexample: [None] comes back tagged, not as itself. *)
Lemma C8_none_tagged :
  sanitize 1 (s_ "#") h_none 0%nat = Ok (SStr (s_ "#None")) /\
  sanitize 1 (s_ "#") h_none 0%nat <> Ok (SObj 0%nat).
Proof. split; [reflexivity | discriminate]. Qed.

(** C10: a dict is rebuilt from its own key objects, unchanged, and its
    sanitized values; keys are never sanitized. *)
Theorem C10_dict_keys_kept : forall depth tag h a kvs r,
  h a = ODict kvs -> sanitize depth tag h a = Ok r ->
  exists d vs, depth = S d /\
    all_ok (map (fun kv => sanitize d tag h (snd kv)) kvs) = Ok vs /\
    r = SDict (combine (map fst kvs) vs) /\
    map fst (combine (map fst kvs) vs) = map fst kvs.
Proof.
  intros [|d] tag h a kvs r Ha H; [discriminate|].
  simpl in H. rewrite Ha in H.
  destruct (all_ok _) as [vs|] eqn:E; cbn [bind] in H; [|discriminate].
  injection H as <-. exists d, vs. split; [reflexivity|]. split; [exact E|].
  split; [reflexivity|]. apply map_fst_combine.
  rewrite (all_ok_length _ _ _ E). now rewrite length_map.
Qed.

Lemma C10_dict_keys_kept_witness : exists d vs, (2 = S d)%nat /\
  all_ok (map (fun kv => sanitize d (s_ "#") h_dict (snd kv)) [(1%nat, 2%nat)]) = Ok vs /\
  SDict [(1%nat, SObj 2%nat)] = SDict (combine (map fst [(1%nat, 2%nat)]) vs) /\
  map fst (combine (map fst [(1%nat, 2%nat)]) vs) = map fst [(1%nat, 2%nat)].
Proof.
  exact (C10_dict_keys_kept 2 (s_ "#") h_dict 0%nat [(1%nat, 2%nat)] (SDict [(1%nat, SObj 2%nat)])
           eq_refl ltac:(vm_compute; reflexivity)).
Defined.

(** ** [return_values] on dicts *)

Lemma dget_app : forall l1 l2 k,
  dget (l1 ++ l2) k = match dget l1 k with Some v => Some v | None => dget l2 k end.
Proof.
  induction l1 as [|[k0 v0] l1 IH]; intros l2 k; simpl; [reflexivity|].
  destruct (str_eqb k k0); [reflexivity | apply IH].
Qed.

Lemma dget_dsetdefault : forall l k v k',
  dget (dsetdefault l k v) k'
  = match dget l k' with Some x => Some x | None => if str_eqb k' k then Some v else None end.
Proof.
  intros l k v k'. unfold dsetdefault. destruct (dget l k) as [x|] eqn:E.
  - destruct (dget l k') eqn:F; [reflexivity|].
    destruct (str_eqb k' k) eqn:G; [|reflexivity].
    apply str_eqb_eq in G. subst. congruence.
  - rewrite dget_app. destruct (dget l k'); [reflexivity|]. simpl.
    now destruct (str_eqb k' k).
Qed.

Lemma dget_fold_setdefault : forall d l k,
  dget (fold_left (fun acc kv => dsetdefault acc (fst kv) (snd kv)) d l) k
  = match dget l k with Some x => Some x | None => dget d k end.
Proof.
  induction d as [|[k0 v0] d IH]; intros l k; simpl.
  - now destruct (dget l k).
  - rewrite IH, dget_dsetdefault. destruct (dget l k); [reflexivity|].
    now destruct (str_eqb k k0).
Qed.

(** ** Malformed directive parameters *)

Lemma return_values_mismatch : forall v d,
  pytype_eqb (type_of v) (type_of d) = false -> return_values v d = Err Exception_.
Proof. intros v d H. unfold return_values. now rewrite H. Qed.

Lemma apply_param_mismatch : forall tw level key name d v st,
  In (name, d) directive_defaults -> pytype_eqb (type_of v) (type_of d) = false ->
  apply_param tw level key name v st = Err Exception_.
Proof.
  intros tw level key name d v st Hin Hty.
  repeat (destruct Hin as [Hin|Hin]; [injection Hin as <- <-|]); [..|contradiction];
    unfold apply_param; cbn [str_eqb s_ list_ascii_of_string map N_of_ascii N_of_digits];
    simpl;
    unfold apply_align, apply_case, apply_filter, apply_affix, apply_truncate, apply_color,
      apply_style, apply_pad, apply_repeat, apply_if;
    rewrite (return_values_mismatch _ _ Hty); reflexivity.
Qed.

Lemma render_segments_err : forall e tw ctx level seg rest x pre line plen,
  render_segment e tw ctx level seg = Err x ->
  exists x', render_segments e tw ctx level (pre ++ seg :: rest) line plen = Err x'.
Proof.
  intros e tw ctx level seg rest x pre. induction pre as [|s pre IH]; intros line plen H.
  - exists x. simpl. now rewrite H.
  - simpl. destruct (render_segment e tw ctx level s); cbn [bind]; [now apply IH | eexists; reflexivity].
Qed.

Lemma parse_log_line_err : forall e tw ctx level seg pre rest x,
  render_segment e tw ctx level seg = Err x ->
  exists x', parse_log_line e tw ctx level (pre ++ seg :: rest) = Err x'.
Proof.
  intros e tw ctx level seg pre rest x H. unfold parse_log_line.
  destruct (pre ++ seg :: rest) eqn:E; [now destruct pre | rewrite <- E].
  now apply render_segments_err with (x := x).
Qed.

(** [pvalue["width"] += ...] on a string width raises [TypeError]. *)
Lemma apply_align_str_width : forall tw level key kvs s st,
  dget kvs (s_ "width") = Some (VStr s) ->
  apply_param tw level key (s_ "align") (VDict kvs) st = Err TypeError.
Proof.
  intros tw level key kvs s st Hw. unfold apply_param. rewrite str_eqb_refl.
  unfold apply_align, return_values. cbn [type_of align_default pytype_eqb negb bind as_dict].
  destruct (as_str (st_value st)) as [v|] eqn:Es; cbn [bind].
  2:{ destruct (st_value st); simpl in Es; try discriminate; now injection Es as <-. }
  unfold adjusted_width, dindex. rewrite dget_fold_setdefault, Hw. reflexivity.
Qed.

(** A parameter that fails in every state makes the walk fail once it is
    anywhere in the worklist: the worklist is consumed from the front and
    the parameters an [if] splices in go in front of the rest. *)
Lemma run_params_reaches : forall tw level key p,
  (forall st, exists x, apply_param tw level key (fst p) (snd p) st = Err x) ->
  forall fuel ps st, In [p] ps -> exists x, run_params fuel tw level key ps st = Err x.
Proof.
  intros tw level key [name v] Hp fuel. cbn [fst snd] in Hp.
  induction fuel as [|f IH]; intros ps st Hin.
  - destruct ps as [|q ps]; [contradiction | exists OutOfFuel; reflexivity].
  - destruct ps as [|q ps]; [contradiction|].
    destruct Hin as [->|Hin].
    + destruct (Hp st) as [x Hx]. exists x. cbn [run_params]. rewrite Hx. reflexivity.
    + cbn [run_params]. destruct q as [|[n w] [|q' q]]; [eexists; reflexivity | | eexists; reflexivity].
      destruct (apply_param tw level key n w st) as [[st1 ins]|x]; cbn [bind].
      * apply IH. apply in_or_app. right. exact Hin.
      * exists x. reflexivity.
Qed.

Lemma parse_log_line_param_err : forall e tw ctx level pre seg rest p,
  seg_type seg = s_ "template" -> In [p] (seg_params seg) ->
  (forall st, exists x, apply_param tw level (seg_value seg) (fst p) (snd p) st = Err x) ->
  exists x, parse_log_line e tw ctx level (pre ++ seg :: rest) = Err x.
Proof.
  intros e tw ctx level pre seg rest p Ht Hin Hp.
  destruct (run_params_reaches tw level (seg_value seg) p Hp (params_fuel (seg_params seg))
              (seg_params seg) (init_state (VStr (ctx_get ctx (seg_value seg)))) Hin) as [x Hx].
  apply parse_log_line_err with (x := x).
  unfold render_segment. cbv zeta. rewrite Ht, str_eqb_refl, Hx. reflexivity.
Qed.

(** C4 (as amended): a directive whose parameter value has another type
    than the directive's default (a string where a dict is expected, ...)
    raises [Exception] when the walk reaches it, and an [align] whose width
    is a string raises [TypeError]; at any position of a segment's
    parameters, also once spliced in by an [if], this makes the whole
    line's rendering raise, whatever the other segments are: no default
    is substituted. *)
Theorem C4_malformed_param_raises :
  (forall tw level key name d v st f rest,
     In (name, d) directive_defaults -> pytype_eqb (type_of v) (type_of d) = false ->
     run_params (S f) tw level key ([(name, v)] :: rest) st = Err Exception_) /\
  (forall tw level key kvs s st f rest,
     dget kvs (s_ "width") = Some (VStr s) ->
     run_params (S f) tw level key ([(s_ "align", VDict kvs)] :: rest) st = Err TypeError) /\
  (forall e tw ctx level pre seg rest name d v,
     seg_type seg = s_ "template" -> In [(name, v)] (seg_params seg) ->
     In (name, d) directive_defaults -> pytype_eqb (type_of v) (type_of d) = false ->
     exists x, parse_log_line e tw ctx level (pre ++ seg :: rest) = Err x) /\
  (forall e tw ctx level pre seg rest kvs s,
     seg_type seg = s_ "template" -> In [(s_ "align", VDict kvs)] (seg_params seg) ->
     dget kvs (s_ "width") = Some (VStr s) ->
     exists x, parse_log_line e tw ctx level (pre ++ seg :: rest) = Err x) /\
  (forall tw level key pv ins name d v st f rest,
     apply_if tw pv = Ok ins -> In [(name, v)] ins ->
     In (name, d) directive_defaults -> pytype_eqb (type_of v) (type_of d) = false ->
     exists x, run_params f tw level key ([(s_ "if", pv)] :: rest) st = Err x).
Proof.
  split; [|split; [|split; [|split]]].
  - intros tw level key name d v st f rest Hin Hty. cbn [run_params].
    rewrite (apply_param_mismatch _ _ _ _ _ _ _ Hin Hty). reflexivity.
  - intros tw level key kvs s st f rest Hw. cbn [run_params].
    rewrite (apply_align_str_width _ _ _ _ _ _ Hw). reflexivity.
  - intros e tw ctx level pre seg rest name d v Ht Hin Hd Hty.
    apply (parse_log_line_param_err e tw ctx level pre seg rest (name, v) Ht Hin).
    intros st. exists Exception_. exact (apply_param_mismatch _ _ _ _ _ _ _ Hd Hty).
  - intros e tw ctx level pre seg rest kvs s Ht Hin Hw.
    apply (parse_log_line_param_err e tw ctx level pre seg rest (s_ "align", VDict kvs) Ht Hin).
    intros st. exists TypeError. exact (apply_align_str_width _ _ _ _ _ _ Hw).
  - intros tw level key pv ins name d v st f rest Hif Hin Hd Hty.
    destruct f as [|f]; [exists OutOfFuel; reflexivity|].
    cbn [run_params].
    assert (Hp : apply_param tw level key (s_ "if") pv st = Ok (st, ins)).
    { unfold apply_param. cbn [str_eqb s_ list_ascii_of_string map N_of_ascii N_of_digits].
      simpl. rewrite Hif. reflexivity. }
    rewrite Hp. cbn [bind fst snd].
    apply (run_params_reaches tw level key (name, v)); [|apply in_or_app; left; exact Hin].
    intros st'. exists Exception_. exact (apply_param_mismatch _ _ _ _ _ _ _ Hd Hty).
Qed.

Lemma C4_malformed_param_raises_witness :
  (exists x, parse_log_line e0 100 ctx7 (s_ "info")
     ([static " "] ++ template "linenum" [align_left3; [(s_ "case", VInt 3)]] :: []) = Err x) /\
  (exists x, run_params 3 100 (s_ "info") (s_ "linenum") ([(s_ "if", if_case_int)] :: [])
     (init_state (VStr (s_ "7"))) = Err x).
Proof.
  split.
  - exact (proj1 (proj2 (proj2 C4_malformed_param_raises)) e0 100%Z ctx7 (s_ "info") [static " "]
             (template "linenum" [align_left3; [(s_ "case", VInt 3)]]) [] (s_ "case") case_default
             (VInt 3) eq_refl ltac:(simpl; right; left; reflexivity)
             ltac:(simpl; right; left; reflexivity) eq_refl).
  - exact (proj2 (proj2 (proj2 (proj2 C4_malformed_param_raises))) 100%Z (s_ "info") (s_ "linenum")
             if_case_int [[(s_ "case", VInt 3)]] (s_ "case") case_default (VInt 3)
             (init_state (VStr (s_ "7"))) 3%nat [] ltac:(vm_compute; reflexivity)
             ltac:(simpl; left; reflexivity) ltac:(simpl; right; left; reflexivity) eq_refl).
Defined.

(** C4 counterexample: [align: "left"] (a string where a dict is expected)
    raises [Exception("Value left must be type <class 'dict'>.")] out of the
    rendering instead of falling back to the default alignment. *)
Lemma C4_align_string_raises :
  parse_log_line e0 100 ctx7 (s_ "info")
    [template "linenum" [[(s_ "align", VStr (s_ "left"))]]] = Err Exception_.
Proof. vm_compute. reflexivity. Qed.

(** ** [filter] in include mode *)

(** C6: the include loop replaces the value as soon as one listed item is
    missing: on ["a"], where "a" occurs, the value still becomes "X". *)
Theorem C6_filter_include_any_missing :
  apply_filter (VStr (s_ "a")) filter_include_ab = Ok (VStr (s_ "X")) /\
  exists out n,
    render_segment e0 100 [(s_ "message", s_ "a")] (s_ "info")
      (template "message" [[(s_ "filter", filter_include_ab)]]) = Ok (out, n) /\
    remove_ansi out = s_ "X".
Proof.
  split; [vm_compute; reflexivity|].
  exists (s_ "X" ++ RESET_ALL), 1%nat. split; vm_compute; reflexivity.
Qed.

(** ** RGB colours *)

(** C9: [rgb_to_ansi] truncates with [int()]: (128, 0, 0) gives index 88,
    where rounding gives 124. *)
Theorem C9_rgb_truncates :
  color_code true (VTuple [VInt 128; VInt 0; VInt 0]) = Ok (sgr (s_ "38;5;88")) /\
  color_index 128 0 0 = 88%Z /\ color_index_round 128 0 0 = 124%Z.
Proof. split; [|split]; vm_compute; reflexivity. Qed.

(* ================================================================== *)
(** * Further properties of the code *)

(** ** Scanning never lengthens the text *)

Lemma scan_length_le : forall delta s st,
  (List.length (scan delta st s) <= List.length (flush st) + List.length s)%nat.
Proof.
  intros delta. induction s as [|c s IH]; intros st; cbn [scan].
  - simpl. lia.
  - destruct st as [|buf p]; cbn [step].
    + unfold step_normal. destruct (c =? ESC).
      * specialize (IH (Pend [c] 0%nat)). simpl in *. lia.
      * specialize (IH Normal). simpl in *. lia.
    + destruct (delta p c) as [p'| |].
      * specialize (IH (Pend (buf ++ [c]) p')). simpl in *. rewrite length_app in IH.
        simpl in IH. lia.
      * specialize (IH Normal). simpl in *. lia.
      * unfold step_normal. destruct (c =? ESC).
        -- specialize (IH (Pend [c] 0%nat)). simpl in *. rewrite !length_app. simpl. lia.
        -- specialize (IH Normal). simpl in *. rewrite !length_app. simpl. lia.
Qed.

Lemma scan_no_esc : forall delta s, ~ In ESC s -> scan delta Normal s = s.
Proof.
  intros delta. induction s as [|c s IH]; intros H; [reflexivity|].
  cbn [scan step]. rewrite step_normal_other by (intro E; apply H; left; congruence).
  simpl. f_equal. apply IH. intro Hi. apply H. right. exact Hi.
Qed.

(** ** [__wrap_text] keeps the text *)

Lemma filter_rev_comm : forall {A} (f : A -> bool) l, filter f (rev l) = rev (filter f l).
Proof.
  intros A f. induction l as [|x l IH]; simpl; [reflexivity|].
  rewrite filter_app, IH. simpl. destruct (f x); simpl; [reflexivity | apply app_nil_r].
Qed.

Lemma filter_lstrip_sp : forall s, filter not_space (lstrip_sp s) = filter not_space s.
Proof.
  induction s as [|c s IH]; [reflexivity|]. simpl.
  unfold not_space at 2. destruct (is_space c) eqn:E; simpl; [exact IH|].
  unfold not_space at 1. rewrite E. reflexivity.
Qed.

Lemma filter_rstrip : forall s, filter not_space (rstrip s) = filter not_space s.
Proof.
  intros s. unfold rstrip. rewrite filter_rev_comm, filter_lstrip_sp, filter_rev_comm.
  apply rev_involutive.
Qed.

Lemma tokens_aux_concat : forall s cur b,
  List.concat (tokens_aux s cur b) = cur ++ (if nonempty cur then s else lstrip_sp s).
Proof.
  induction s as [|c s IH]; intros cur b.
  - destruct cur; simpl; [reflexivity | now rewrite app_nil_r].
  - cbn [tokens_aux lstrip_sp]. destruct (is_space c) eqn:Ec.
    + destruct cur as [|x cur].
      * rewrite IH. reflexivity.
      * rewrite IH. simpl. now rewrite <- app_assoc.
    + destruct b.
      * cbn [List.concat]. rewrite IH. destruct cur; reflexivity.
      * rewrite IH. destruct cur; simpl; [reflexivity | now rewrite <- app_assoc].
Qed.

Lemma wrap_words_filter : forall width toks cur curlen,
  filter not_space (List.concat (wrap_words width toks cur curlen))
  = filter not_space (cur ++ List.concat toks).
Proof.
  induction toks as [|w ws IH]; intros cur curlen; cbn [wrap_words List.concat].
  - destruct cur as [|x cur]; [reflexivity|]. cbn [nonempty List.concat].
    now rewrite !app_nil_r, filter_rstrip.
  - destruct (width <? _)%Z.
    + rewrite concat_app, filter_app, IH.
      destruct cur as [|x cur]; [reflexivity|]. cbn [nonempty List.concat].
      now rewrite app_nil_r, filter_rstrip, !filter_app.
    + rewrite IH. now rewrite app_assoc.
Qed.

Lemma filter_split_nl : forall t,
  filter not_space t = List.concat (map (filter not_space) (split_nl t)).
Proof.
  induction t as [|c t IH]; [reflexivity|]. cbn [split_nl].
  destruct (c =? 10) eqn:E.
  - apply N.eqb_eq in E; subst. exact IH.
  - destruct (split_nl t) as [|p ps] eqn:Es; [exfalso; exact (split_nl_nonempty t Es)|].
    simpl in *. rewrite IH. destruct (not_space c); reflexivity.
Qed.

Lemma wrap_text_filter : forall t w,
  filter not_space (List.concat (wrap_text t w)) = filter not_space t.
Proof.
  intros t w. unfold wrap_text. rewrite (filter_split_nl t).
  induction (split_nl t) as [|l ls IH]; [reflexivity|].
  simpl. rewrite concat_app, filter_app, IH. f_equal.
  unfold wrap_line. rewrite wrap_words_filter. unfold tokens. rewrite tokens_aux_concat.
  apply filter_lstrip_sp.
Qed.

(** ** Lines produced by [__wrap_text] are trimmed *)

Lemma lstrip_sp_snoc : forall l c, is_space c = false -> lstrip_sp (l ++ [c]) = lstrip_sp l ++ [c].
Proof.
  induction l as [|x l IH]; intros c Hc; simpl; [now rewrite Hc|].
  destruct (is_space x); [now apply IH | reflexivity].
Qed.

Lemma lstrip_sp_shape : forall s,
  lstrip_sp s = [] \/ exists c r, lstrip_sp s = c :: r /\ is_space c = false.
Proof.
  induction s as [|c s IH]; simpl; [now left|].
  destruct (is_space c) eqn:E; [exact IH | right; now exists c, s].
Qed.

Lemma rstrip_cons : forall c r, is_space c = false -> rstrip (c :: r) = c :: rstrip r.
Proof.
  intros c r Hc. unfold rstrip. simpl. rewrite lstrip_sp_snoc by exact Hc.
  now rewrite rev_app_distr.
Qed.

Lemma rstrip_last : forall c r, is_space c = false -> is_space (last (rstrip (c :: r)) 0) = false.
Proof.
  intros c r Hc. unfold rstrip. simpl. rewrite lstrip_sp_snoc by exact Hc.
  destruct (lstrip_sp_shape (rev r)) as [E | (d & y & E & Hd)]; rewrite E.
  - simpl. exact Hc.
  - simpl. rewrite last_last. exact Hd.
Qed.

Lemma tokens_aux_shape : forall s cur b,
  (cur = [] /\ b = false) \/ (exists c r, cur = c :: r /\ is_space c = false) ->
  Forall (fun tk => exists c r, tk = c :: r /\ is_space c = false) (tokens_aux s cur b).
Proof.
  induction s as [|c s IH]; intros cur b H; cbn [tokens_aux].
  - destruct H as [[-> _] | (x & r & -> & Hx)]; [constructor|].
    constructor; [now exists x, r | constructor].
  - destruct (is_space c) eqn:Ec.
    + destruct cur as [|x r].
      * apply IH. now left.
      * apply IH. right. destruct H as [[H _] | (y & r' & E & Hy)]; [discriminate|].
        injection E as -> ->. now exists y, (r' ++ [c]).
    + destruct b.
      * destruct H as [[_ H] | H]; [discriminate|]. constructor; [exact H|].
        apply IH. right. now exists c, [].
      * apply IH. right. destruct H as [[-> _] | (y & r' & -> & Hy)].
        -- now exists c, [].
        -- now exists y, (r' ++ [c]).
Qed.

Lemma rstrip_forall : forall (P : pychar -> Prop) s, Forall P s -> Forall P (rstrip s).
Proof.
  intros P s H. unfold rstrip. apply Forall_rev.
  assert (G : forall l, Forall P l -> Forall P (lstrip_sp l)).
  { induction l as [|x l IH]; intros Hl; simpl; [constructor|].
    destruct (is_space x); [|exact Hl]. inversion Hl; subst. now apply IH. }
  apply G. now apply Forall_rev.
Qed.

Lemma tokens_aux_forall : forall (P : pychar -> Prop) s cur b,
  Forall P s -> Forall P cur -> Forall (Forall P) (tokens_aux s cur b).
Proof.
  intros P. induction s as [|c s IH]; intros cur b Hs Hcur; cbn [tokens_aux].
  - destruct cur; [constructor | constructor; [exact Hcur | constructor]].
  - inversion Hs as [|? ? Hc Hs']; subst.
    destruct (is_space c); [destruct cur|destruct b].
    + now apply IH.
    + apply IH; [exact Hs' | apply Forall_app; split; [exact Hcur | now constructor]].
    + constructor; [exact Hcur|]. apply IH; [exact Hs' | now constructor].
    + apply IH; [exact Hs' | apply Forall_app; split; [exact Hcur | now constructor]].
Qed.

Lemma wrap_words_forall : forall (P : pychar -> Prop) width toks cur curlen,
  Forall (Forall P) toks -> Forall P cur -> Forall (Forall P) (wrap_words width toks cur curlen).
Proof.
  intros P width. induction toks as [|w ws IH]; intros cur curlen Ht Hc; cbn [wrap_words].
  - destruct (nonempty cur); [constructor; [now apply rstrip_forall | constructor] | constructor].
  - inversion Ht as [|? ? Hw Hws]; subst.
    destruct (width <? _)%Z.
    + apply Forall_app. split.
      * destruct (nonempty cur); [constructor; [now apply rstrip_forall | constructor] | constructor].
      * now apply IH.
    + apply IH; [exact Hws | apply Forall_app; now split].
Qed.

Lemma wrap_words_shape : forall width toks cur curlen,
  Forall (fun tk => exists c r, tk = c :: r /\ is_space c = false) toks ->
  (cur = [] \/ exists c r, cur = c :: r /\ is_space c = false) ->
  Forall (fun l => l <> [] /\ is_space (hd 0 l) = false /\ is_space (last l 0) = false)
    (wrap_words width toks cur curlen).
Proof.
  assert (Last : forall cur, (cur = [] \/ exists c r, cur = c :: r /\ is_space c = false) ->
    Forall (fun l => l <> [] /\ is_space (hd 0 l) = false /\ is_space (last l 0) = false)
      (if nonempty cur then [rstrip cur] else [])).
  { intros cur [-> | (c & r & -> & Hc)]; [constructor|].
    constructor; [|constructor]. split; [|split].
    - rewrite rstrip_cons by exact Hc. discriminate.
    - rewrite rstrip_cons by exact Hc. exact Hc.
    - now apply rstrip_last. }
  intros width. induction toks as [|w ws IH]; intros cur curlen Ht Hc; cbn [wrap_words].
  - now apply Last.
  - inversion Ht as [|? ? Hw Hws]; subst.
    destruct (width <? _)%Z.
    + apply Forall_app. split; [now apply Last|]. apply IH; [exact Hws | right; exact Hw].
    + apply IH; [exact Hws|]. right.
      destruct Hc as [-> | (c & r & -> & Hc)]; [exact Hw | now exists c, (r ++ w)].
Qed.

Lemma split_nl_no_nl : forall t, Forall (Forall (fun c => c <> 10)) (split_nl t).
Proof.
  induction t as [|c t IH]; cbn [split_nl]; [repeat constructor|].
  destruct (c =? 10) eqn:E; [constructor; [constructor | exact IH]|].
  apply N.eqb_neq in E.
  destruct (split_nl t) as [|p ps]; [repeat constructor; exact E|].
  inversion IH; subst. constructor; [constructor; assumption | assumption].
Qed.

Lemma wrap_text_lines : forall t w l, In l (wrap_text t w) ->
  l <> [] /\ ~ In 10 l /\ is_space (hd 0 l) = false /\ is_space (last l 0) = false.
Proof.
  intros t w l Hl. unfold wrap_text in Hl. apply in_flat_map in Hl as (line & Hline & Hl).
  unfold wrap_line in Hl.
  assert (Hs := wrap_words_shape w (tokens line) [] 0%nat
                  (tokens_aux_shape line [] false (or_introl (conj eq_refl eq_refl)))
                  (or_introl eq_refl)).
  assert (Hn : Forall (Forall (fun c => c <> 10)) (wrap_words w (tokens line) [] 0)).
  { apply wrap_words_forall; [|constructor]. apply tokens_aux_forall; [|constructor].
    exact (proj1 (Forall_forall _ _) (split_nl_no_nl t) line Hline). }
  rewrite Forall_forall in Hs, Hn.
  destruct (Hs l Hl) as (H1 & H2 & H3). specialize (Hn l Hl).
  rewrite Forall_forall in Hn.
  repeat split; try assumption. intro Hi. exact (Hn 10 Hi eq_refl).
Qed.

(** ** A line that fits is not broken *)

Lemma visible_length_le : forall s, (visible_length s <= List.length s)%nat.
Proof.
  intros s. unfold visible_length, wrap_strip.
  pose proof (scan_length_le delta_wrap s Normal). simpl in *. lia.
Qed.

Lemma wrap_words_fit : forall width toks cur curlen,
  (Z.of_nat (curlen + List.length (List.concat toks)) <= width)%Z ->
  wrap_words width toks cur curlen
  = if nonempty (cur ++ List.concat toks) then [rstrip (cur ++ List.concat toks)] else [].
Proof.
  induction toks as [|w ws IH]; intros cur curlen H; cbn [wrap_words List.concat].
  - now rewrite app_nil_r.
  - cbn [List.concat] in H. rewrite length_app in H. pose proof (visible_length_le w).
    replace (width <? _)%Z with false by (symmetry; apply Z.ltb_ge; lia).
    rewrite IH by lia. now rewrite app_assoc.
Qed.

Lemma split_nl_single : forall s, ~ In 10 s -> split_nl s = [s].
Proof.
  induction s as [|c s IH]; intros H; [reflexivity|]. cbn [split_nl].
  replace (c =? 10) with false by (symmetry; apply N.eqb_neq; intro E; apply H; now left).
  rewrite IH; [reflexivity|]. intro Hi. apply H. now right.
Qed.

Lemma lstrip_sp_length : forall s, (List.length (lstrip_sp s) <= List.length s)%nat.
Proof.
  induction s as [|c s IH]; simpl; [lia|]. destruct (is_space c); simpl; lia.
Qed.

Lemma nonempty_lstrip_sp : forall s, nonempty (lstrip_sp s) = negb (forallb is_space s).
Proof.
  induction s as [|c s IH]; [reflexivity|]. simpl. destruct (is_space c); simpl; [exact IH | reflexivity].
Qed.

(** ** A blank message *)

Lemma filter_not_space_nil : forall t, filter not_space t = [] <-> forallb is_space t = true.
Proof.
  induction t as [|c t IH]; simpl; [tauto|]. unfold not_space at 1.
  destruct (is_space c); simpl; [exact IH | split; discriminate].
Qed.

Lemma wrap_text_nil : forall t w, wrap_text t w = [] <-> forallb is_space t = true.
Proof.
  intros t w. rewrite <- filter_not_space_nil, <- (wrap_text_filter t w). split.
  - intros E. now rewrite E.
  - destruct (wrap_text t w) as [|l ls] eqn:E; [reflexivity|].
    destruct (wrap_text_lines t w l) as (Hl & _ & Hh & _); [rewrite E; now left|].
    destruct l as [|c l]; [congruence|]. simpl in Hh. simpl.
    unfold not_space at 1. rewrite Hh. discriminate.
Qed.

(** ** Extra X1 *)

(** X1 ([__remove_ansi]): removing escape sequences never makes a string
    longer. *)
Theorem X1_remove_ansi_shorter : forall s,
  (List.length (remove_ansi s) <= List.length s)%nat.
Proof.
  intros s. unfold remove_ansi. pose proof (scan_length_le delta_remove s Normal).
  simpl in *. lia.
Qed.

(** ** Extra X2 *)

(** X2 ([__remove_ansi]): a string without an ESC character is returned
    unchanged. *)
Theorem X2_remove_ansi_plain : forall s, ~ In ESC s -> remove_ansi s = s.
Proof. intros s H. now apply scan_no_esc. Qed.

Lemma X2_remove_ansi_plain_witness :
  ~ In ESC (s_ "a[1m") /\ remove_ansi (s_ "a[1m") = s_ "a[1m".
Proof.
  split; [intro H; simpl in H; unfold ESC in H; lia|].
  apply X2_remove_ansi_plain. intro H; simpl in H; unfold ESC in H; lia.
Defined.

(** ** Extra X3 *)

(** X3 ([__remove_ansi]): an SGR code [ESC [ params m] placed anywhere in
    a string is removed, and the text on both sides of it is kept. *)
Theorem X3_remove_ansi_sgr_inside : forall a ps b,
  sgr_ok ps = true -> remove_ansi (a ++ sgr ps ++ b) = remove_ansi a ++ remove_ansi b.
Proof.
  intros a ps b H. pose proof (remove_ansi_sgr ps b H) as E. unfold remove_ansi in *.
  replace (a ++ sgr ps ++ b) with (a ++ ESC :: (91 :: ps ++ [109]) ++ b) by reflexivity.
  rewrite (scan_app_esc delta_remove delta_remove_esc). f_equal. exact E.
Qed.

Lemma X3_remove_ansi_sgr_inside_witness :
  sgr_ok (s_ "1;31") = true /\
  remove_ansi (s_ "ab" ++ sgr (s_ "1;31") ++ s_ "cd") = remove_ansi (s_ "ab") ++ remove_ansi (s_ "cd").
Proof.
  split; [reflexivity|]. apply X3_remove_ansi_sgr_inside. reflexivity.
Defined.

(** ** Extra X4 *)

(** X4 ([__wrap_text]): wrapping drops only whitespace: the non-whitespace
    characters of the lines, read in order, are those of the text. *)
Theorem X4_wrap_keeps_text : forall t w,
  filter not_space (List.concat (wrap_text t w)) = filter not_space t.
Proof. exact wrap_text_filter. Qed.

(** ** Extra X5 *)

(** X5 ([__wrap_text]): every line returned is non-empty, holds no newline,
    and neither starts nor ends with whitespace. *)
Theorem X5_wrap_lines_trimmed : forall t w l, In l (wrap_text t w) ->
  l <> [] /\ ~ In 10 l /\ is_space (hd 0 l) = false /\ is_space (last l 0) = false.
Proof. exact wrap_text_lines. Qed.

Lemma X5_wrap_lines_trimmed_witness :
  In (s_ "ab") (wrap_text (s_ "  ab   cd  ") 4) /\
  s_ "ab" <> [] /\ ~ In 10 (s_ "ab") /\ is_space (hd 0 (s_ "ab")) = false
  /\ is_space (last (s_ "ab") 0) = false.
Proof.
  split; [vm_compute; left; reflexivity|].
  apply (X5_wrap_lines_trimmed (s_ "  ab   cd  ") 4). vm_compute. left. reflexivity.
Defined.

(** ** Extra X6 *)

(** X6 ([__wrap_text]): a line without newline whose length is at most the
    width comes back as one line, stripped of surrounding whitespace; a
    blank line gives no line. *)
Theorem X6_wrap_line_fits : forall line w,
  ~ In 10 line -> (Z.of_nat (List.length line) <= w)%Z ->
  wrap_text line w = if forallb is_space line then [] else [rstrip (lstrip_sp line)].
Proof.
  intros line w Hn Hw. unfold wrap_text. rewrite split_nl_single by exact Hn.
  cbn [flat_map]. rewrite app_nil_r. unfold wrap_line, tokens.
  rewrite wrap_words_fit.
  - rewrite tokens_aux_concat. cbn [nonempty app]. rewrite nonempty_lstrip_sp.
    destruct (forallb is_space line); reflexivity.
  - rewrite tokens_aux_concat. cbn [nonempty app]. pose proof (lstrip_sp_length line). unfold pystr, pychar in *. lia.
Qed.

Lemma X6_wrap_line_fits_witness :
  ~ In 10 (s_ " a b ") /\ (Z.of_nat (List.length (s_ " a b ")) <= 5)%Z /\
  wrap_text (s_ " a b ") 5 = [s_ "a b"].
Proof.
  split; [intro H; simpl in H; lia|]. split; [simpl; lia|].
  rewrite X6_wrap_line_fits; [reflexivity | intro H; simpl in H; lia | simpl; lia].
Defined.

(** ** Extra X7 *)

(** X7 ([__log]): [len(lines[-1])] raises [IndexError] exactly when the
    message is empty or all whitespace; otherwise the line count and the
    length of the last line are recorded. *)
Theorem X7_log_wrap_blank : forall message space,
  log_wrap message space = Err IndexError <-> forallb is_space message = true.
Proof.
  intros m sp. unfold log_wrap. rewrite <- (wrap_text_nil m sp).
  destruct (wrap_text m sp) as [|l ls] eqn:E; cbn [rev].
  - split; reflexivity.
  - destruct (rev ls ++ [l]) eqn:R; [apply app_eq_nil in R as [_ R]; discriminate|].
    split; discriminate.
Qed.

(** ** Level and message filtering of [__log] *)

Lemma min_level_check_name : forall name m cur,
  assoc_z levels name = Some m -> min_level_check (VStr name) cur = min_level_check (VInt m) cur.
Proof.
  intros name m cur H. unfold min_level_check. destruct (cur =? -1)%Z; [reflexivity|].
  now rewrite H.
Qed.

Lemma lower_all_strs : forall l, Forall (fun v => exists s, v = VStr s) l ->
  exists r, lower_all l = Ok r /\ List.length r = List.length l.
Proof.
  intros l H. unfold lower_all.
  destruct (all_ok_total (fun v => let* s := str_method v in Ok (lower s)) l) as [r Hr].
  - intros x Hx. rewrite Forall_forall in H. destruct (H x Hx) as [s ->]. now exists (lower s).
  - exists r. split; [exact Hr | exact (all_ok_length _ _ _ Hr)].
Qed.

(** ** Extra X8 *)

(** X8 ([__log]): a [critical] message is never dropped by [min_level],
    whatever its value (even one that is not a level): only the message
    filters apply. *)
Theorem X8_critical_ignores_min_level : forall min_level exclude include,
  log_gate min_level exclude include (s_ "critical") = message_filters exclude include.
Proof. reflexivity. Qed.

(** ** Extra X9 *)

(** X9 ([__log]): giving [min_level] as a level name filters exactly as
    giving the number of that level. *)
Theorem X9_min_level_name_number : forall name m exclude include level,
  assoc_z levels name = Some m ->
  log_gate (VStr name) exclude include level = log_gate (VInt m) exclude include level.
Proof.
  intros name m exclude include level H. unfold log_gate, log_gate_level.
  destruct (assoc_z levels level) as [cur|].
  - now rewrite (min_level_check_name name m cur H).
  - destruct (assoc_z levels (s_ "error")) as [cur|]; [|reflexivity].
    now rewrite (min_level_check_name name m cur H).
Qed.

Lemma X9_min_level_name_number_witness :
  assoc_z levels (s_ "warning") = Some 3%Z /\
  log_gate (VStr (s_ "warning")) [] [] (s_ "info") = log_gate (VInt 3) [] [] (s_ "info").
Proof.
  split; [reflexivity|]. apply X9_min_level_name_number. reflexivity.
Defined.

(** ** Extra X10 *)

(** X10 ([__log]): a [min_level] string that names no level makes every
    call raise [KeyError], except for [critical] messages; an unknown
    message level is reported at level [error] and raises as well. *)
Theorem X10_unknown_min_level_raises : forall name exclude include level,
  assoc_z levels name = None -> assoc_z levels level <> Some (-1)%Z ->
  log_gate (VStr name) exclude include level = GRaise KeyError.
Proof.
  intros name exclude include level H Hl. unfold log_gate, log_gate_level, min_level_check.
  rewrite H. destruct (assoc_z levels level) as [cur|].
  - destruct (cur =? -1)%Z eqn:C; [|reflexivity].
    apply Z.eqb_eq in C. subst. contradiction.
  - reflexivity.
Qed.

Lemma X10_unknown_min_level_raises_witness :
  assoc_z levels (s_ "verbose") = None /\ assoc_z levels (s_ "info") <> Some (-1)%Z /\
  log_gate (VStr (s_ "verbose")) [] [] (s_ "info") = GRaise KeyError.
Proof.
  split; [reflexivity|]. split; [discriminate|].
  apply X10_unknown_min_level_raises; [reflexivity | discriminate].
Defined.

(** ** Extra X11 *)

(** X11 ([__log]): once a message passes the level test, a non-empty list
    of strings in [exclude_messages] or [include_only_messages] makes the
    call raise [NameError] ([message] is read before it is assigned); with
    both lists empty the message goes on to be rendered. *)
Theorem X11_message_filters_name_error : forall min_level exclude include level cur,
  assoc_z levels level = Some cur -> min_level_check min_level cur = Ok false ->
  Forall (fun v => exists s, v = VStr s) (exclude ++ include) ->
  log_gate min_level exclude include level
  = match exclude, include with [], [] => GPass | _, _ => GNameError end.
Proof.
  intros ml excl incl level cur E Hm H. unfold log_gate. rewrite E.
  unfold log_gate_level. rewrite Hm. unfold message_filters.
  apply Forall_app in H as [He Hi].
  destruct (lower_all_strs excl He) as (re & Re & Le). rewrite Re.
  destruct excl as [|x excl]; destruct re as [|y re]; try discriminate.
  - destruct incl as [|z incl]; [reflexivity|].
    destruct (lower_all_strs (z :: incl) Hi) as (ri & Ri & Li). rewrite Ri.
    destruct ri; [discriminate | reflexivity].
  - reflexivity.
Qed.

Lemma X11_message_filters_name_error_witness :
  assoc_z levels (s_ "warning") = Some 3%Z /\ min_level_check (VInt 0) 3 = Ok false /\
  Forall (fun v => exists s, v = VStr s) ([VStr (s_ "secret")] ++ []) /\
  log_gate (VInt 0) [VStr (s_ "secret")] [] (s_ "warning") = GNameError.
Proof.
  split; [reflexivity|]. split; [reflexivity|].
  split; [repeat constructor; eexists; reflexivity|].
  apply (X11_message_filters_name_error (VInt 0) [VStr (s_ "secret")] [] (s_ "warning") 3);
    [reflexivity | reflexivity | repeat constructor; eexists; reflexivity].
Defined.

(** ** Extra X12 *)

(** X12 ([__log]): with [show_metadata] on, the metadata block reads
    [context["tms"]], a key the context never has, so it always raises
    [KeyError]. *)
Theorem X12_metadata_key_error : forall e tw file_name wrapping_func line_number display
  log_line widgets,
  metadata_block e true tw (log_context e tw file_name wrapping_func line_number display)
    log_line widgets = Err KeyError.
Proof. reflexivity. Qed.

(** ** Rule merging in [__init__] *)

Lemma str_eqb_sym : forall a b, str_eqb a b = str_eqb b a.
Proof.
  intros a b. destruct (str_eqb a b) eqn:E, (str_eqb b a) eqn:F; try reflexivity.
  - apply str_eqb_eq in E. subst. now rewrite str_eqb_refl in F.
  - apply str_eqb_eq in F. subst. now rewrite str_eqb_refl in E.
Qed.

Lemma dget_dset : forall d k v k',
  dget (dset d k v) k' = if str_eqb k' k then Some v else dget d k'.
Proof.
  induction d as [|[k0 v0] d IH]; intros k v k'; simpl; [reflexivity|].
  destruct (str_eqb k k0) eqn:E.
  - apply str_eqb_eq in E. subst. simpl. now destruct (str_eqb k' k0).
  - simpl. rewrite IH. destruct (str_eqb k' k0) eqn:F; [|reflexivity].
    apply str_eqb_eq in F. subst. now rewrite str_eqb_sym, E.
Qed.

Lemma dget_notin : forall d k, ~ In k (map fst d) -> dget d k = None.
Proof.
  induction d as [|[k0 v0] d IH]; intros k H; simpl; [reflexivity|].
  destruct (str_eqb k k0) eqn:E.
  - apply str_eqb_eq in E. subst. exfalso. apply H. now left.
  - apply IH. intro Hi. apply H. now right.
Qed.

Lemma dget_dict_update : forall o d k, NoDup (map fst o) ->
  dget (dict_update d o) k = match dget o k with Some v => Some v | None => dget d k end.
Proof.
  unfold dict_update.
  induction o as [|[k0 v0] o IH]; intros d k H; simpl; [reflexivity|].
  inversion H as [|? ? Hn Hnd]; subst.
  rewrite IH by exact Hnd. rewrite dget_dset.
  destruct (str_eqb k k0) eqn:E; [|reflexivity].
  apply str_eqb_eq in E. subst. now rewrite dget_notin.
Qed.

Lemma top_get_in : forall t k x, top_get t k = Some x -> In x (map snd t).
Proof.
  induction t as [|[k0 a0] t IH]; intros k x H; simpl in *; [discriminate|].
  destruct (str_eqb k k0); [injection H as <-; now left | right; eapply IH; exact H].
Qed.

Lemma top_get_key : forall t k x, top_get t k = Some x -> In k (map fst t).
Proof.
  induction t as [|[k0 a0] t IH]; intros k x H; simpl in *; [discriminate|].
  destruct (str_eqb k k0) eqn:E; [apply str_eqb_eq in E; now left | right; eapply IH; exact H].
Qed.

Lemma top_get_inj : forall t k k' x, NoDup (map snd t) ->
  top_get t k = Some x -> top_get t k' = Some x -> k = k'.
Proof.
  induction t as [|[k0 a0] t IH]; intros k k' x Hn H H'; simpl in *; [discriminate|].
  inversion Hn as [|? ? Ha Hn']; subst.
  destruct (str_eqb k k0) eqn:E, (str_eqb k' k0) eqn:E'.
  - apply str_eqb_eq in E, E'. congruence.
  - injection H as <-. exfalso. apply Ha. eapply top_get_in. exact H'.
  - injection H' as <-. exfalso. apply Ha. eapply top_get_in. exact H.
  - eapply IH; eassumption.
Qed.

Lemma top_get_app_found : forall t u k x, top_get t k = Some x -> top_get (t ++ u) k = Some x.
Proof.
  induction t as [|[k0 a0] t IH]; intros u k x H; simpl in *; [discriminate|].
  destruct (str_eqb k k0); [exact H | now apply IH].
Qed.

Lemma top_get_app_missing : forall t u k, top_get t k = None -> top_get (t ++ u) k = top_get u k.
Proof.
  induction t as [|[k0 a0] t IH]; intros u k H; simpl in *; [reflexivity|].
  destruct (str_eqb k k0); [discriminate | now apply IH].
Qed.

Lemma top_set_missing : forall t k a, top_get t k = None -> top_set t k a = t ++ [(k, a)].
Proof.
  induction t as [|[k0 a0] t IH]; intros k a H; simpl in *; [reflexivity|].
  destruct (str_eqb k k0); [discriminate | now rewrite IH].
Qed.

Lemma merge_rules_app : forall u1 u2 rules h,
  merge_rules rules (u1 ++ u2) h
  = let (r1, h1) := merge_rules rules u1 h in merge_rules r1 u2 h1.
Proof.
  induction u1 as [|[c s] u1 IH]; intros u2 rules h; simpl; [reflexivity|].
  destruct (top_get rules c); apply IH.
Qed.

(** A category absent from the user's rules keeps its dict object. *)
Lemma merge_keep : forall u rules h c a, ~ In c (map fst u) -> top_get rules c = Some a ->
  top_get (fst (merge_rules rules u h)) c = Some a.
Proof.
  induction u as [|[k s] u IH]; intros rules h c a Hc H; simpl; [exact H|].
  assert (Hu : ~ In c (map fst u)) by (intro Hi; apply Hc; now right).
  destruct (top_get rules k) eqn:E; apply IH; try exact Hu; [exact H|].
  rewrite top_set_missing by exact E. now apply top_get_app_found.
Qed.

(** An object no updated category points to is left unchanged. *)
Lemma merge_frame : forall u rules h x, NoDup (map fst u) ->
  (forall k, In k (map fst u) -> top_get rules k <> Some x) ->
  snd (merge_rules rules u h) x = h x.
Proof.
  induction u as [|[k s] u IH]; intros rules h x Hn H; simpl; [reflexivity|].
  inversion Hn as [|? ? Hk Hn']; subst.
  destruct (top_get rules k) as [a|] eqn:E.
  - rewrite IH; [| exact Hn' | intros k' Hk'; apply H; now right].
    unfold store_set. destruct (Nat.eqb_spec x a) as [->|]; [|reflexivity].
    exfalso. exact (H k (or_introl eq_refl) E).
  - apply IH; [exact Hn'|]. intros k' Hk'.
    rewrite top_set_missing by exact E.
    destruct (top_get rules k') eqn:E'.
    + rewrite (top_get_app_found _ _ _ _ E'). rewrite <- E'. apply H. now right.
    + rewrite (top_get_app_missing _ _ _ E'). simpl.
      destruct (str_eqb k' k) eqn:F; [|discriminate].
      apply str_eqb_eq in F. subst. contradiction.
Qed.

Lemma merge_nodup : forall u rules h, NoDup (map snd rules ++ map snd u) ->
  NoDup (map snd (fst (merge_rules rules u h))).
Proof.
  induction u as [|[k s] u IH]; intros rules h Hn; simpl.
  - now rewrite app_nil_r in Hn.
  - destruct (top_get rules k) eqn:E; apply IH.
    + simpl in Hn. apply NoDup_remove_1 in Hn. exact Hn.
    + rewrite top_set_missing by exact E. rewrite map_app, <- app_assoc. exact Hn.
Qed.

Lemma top_get_split : forall t k x, top_get t k = Some x ->
  exists t1 t2, t = t1 ++ (k, x) :: t2 /\ ~ In k (map fst t1).
Proof.
  induction t as [|[k0 a0] t IH]; intros k x H; simpl in H; [discriminate|].
  destruct (str_eqb k k0) eqn:E.
  - apply str_eqb_eq in E. injection H as <-. subst. exists [], t. split; [reflexivity | intros []].
  - destruct (IH k x H) as (t1 & t2 & -> & Hn). exists ((k0, a0) :: t1), t2.
    split; [reflexivity|]. simpl. intros [F|F]; [|contradiction].
    subst. now rewrite str_eqb_refl in E.
Qed.

Lemma merge_keep_none : forall u rules h c, ~ In c (map fst u) -> top_get rules c = None ->
  top_get (fst (merge_rules rules u h)) c = None.
Proof.
  induction u as [|[k s] u IH]; intros rules h c Hc H; simpl; [exact H|].
  assert (Hk : c <> k) by (intro E; apply Hc; simpl; left; symmetry; exact E).
  assert (Hu : ~ In c (map fst u)) by (intro Hi; apply Hc; now right).
  destruct (top_get rules k) eqn:E; apply IH; try exact Hu; [exact H|].
  rewrite top_set_missing by exact E. rewrite top_get_app_missing by exact H. simpl.
  destruct (str_eqb c k) eqn:F; [apply str_eqb_eq in F; contradiction | reflexivity].
Qed.

Lemma nodup_app_disj : forall {A} (l1 l2 : list A) x, NoDup (l1 ++ l2) -> In x l1 -> ~ In x l2.
Proof.
  intros A l1. induction l1 as [|y l1 IH]; intros l2 x H H1 H2; [destruct H1|].
  inversion H as [|? ? Hy Hn]; subst. destruct H1 as [<-|H1].
  - apply Hy. apply in_or_app. now right.
  - exact (IH l2 x Hn H1 H2).
Qed.

(** Each object [self.rules] holds after the merge is the default's
    object for that category or one of the user's objects. *)
Lemma merge_origin : forall u rules h k x,
  top_get (fst (merge_rules rules u h)) k = Some x -> top_get rules k = Some x \/ In x (map snd u).
Proof.
  induction u as [|[k0 s] u IH]; intros rules h k x H; simpl in *; [now left|].
  destruct (top_get rules k0) eqn:E.
  - destruct (IH _ _ _ _ H) as [H1|H1]; [now left | now right; right].
  - destruct (IH _ _ _ _ H) as [H1|H1]; [|now right; right].
    rewrite top_set_missing in H1 by exact E.
    destruct (top_get rules k) eqn:E'.
    + rewrite (top_get_app_found _ _ _ _ E') in H1. left. exact H1.
    + rewrite (top_get_app_missing _ _ _ E') in H1. simpl in H1.
      destruct (str_eqb k k0); [|discriminate]. injection H1 as <-. right. now left.
Qed.

(** ** Extra X13 *)

(** X13 ([__init__]): for a category that both the defaults and the user's
    rules have, [self.rules] keeps the defaults' dict object and updates it
    in place: each key reads the user's value if the user set it and the
    default value otherwise.  Since [self.defaults.copy()] is shallow, the
    same object is [self.defaults[category]], which now shows the
    overrides.  The defaults' dicts are literals built by [__init__], so
    they are distinct objects the user's rules cannot hold; the user may
    pass one object for several categories. *)
Theorem X13_init_rules_override : forall defaults user h c a b rules h',
  NoDup (map fst user) -> NoDup (map snd defaults) ->
  (forall x, In x (map snd user) -> ~ In x (map snd defaults)) -> NoDup (map fst (h b)) ->
  top_get defaults c = Some a -> top_get user c = Some b ->
  init_rules defaults user h = (rules, h') ->
  top_get rules c = Some a /\
  (forall k, dget (h' a) k = match dget (h b) k with Some v => Some v | None => dget (h a) k end).
Proof.
  intros defaults user h c a b rules h' Hk Hsd Hdis Hb Hd Hu Hm.
  destruct (top_get_split user c b Hu) as (u1 & u2 & -> & Hc1).
  rewrite map_app in Hk, Hdis. simpl in Hk, Hdis.
  assert (Hk1 : NoDup (map fst u1)) by exact (NoDup_app_remove_r _ _ Hk).
  apply NoDup_app_remove_l in Hk as Hk2. inversion Hk2 as [|? ? Hc2 Hk2']; subst.
  pose proof (top_get_in _ _ _ Hd) as Had.
  unfold init_rules in Hm. rewrite merge_rules_app in Hm.
  destruct (merge_rules defaults u1 h) as [r1 h1] eqn:M1.
  assert (K1 : top_get r1 c = Some a).
  { change r1 with (fst (r1, h1)). rewrite <- M1. now apply merge_keep. }
  assert (Ha : h1 a = h a).
  { change h1 with (snd (r1, h1)). rewrite <- M1. apply merge_frame; [exact Hk1|].
    intros k Hin E. apply Hc1. rewrite <- (top_get_inj _ _ _ _ Hsd E Hd). exact Hin. }
  assert (Hbb : h1 b = h b).
  { change h1 with (snd (r1, h1)). rewrite <- M1. apply merge_frame; [exact Hk1|].
    intros k _ E. apply (Hdis b); [apply in_or_app; right; now left | exact (top_get_in _ _ _ E)]. }
  cbn [merge_rules] in Hm. rewrite K1 in Hm.
  split.
  - change rules with (fst (rules, h')). rewrite <- Hm. now apply merge_keep.
  - intros k. change h' with (snd (rules, h')). rewrite <- Hm.
    rewrite merge_frame; [| exact Hk2' |].
    + unfold store_set. rewrite Nat.eqb_refl, Ha, Hbb. now apply dget_dict_update.
    + intros k' Hin E.
      assert (E1 : top_get (fst (merge_rules defaults u1 h)) k' = Some a) by now rewrite M1.
      destruct (merge_origin _ _ _ _ _ E1) as [E'|E'].
      * apply Hc2. rewrite <- (top_get_inj _ _ _ _ Hsd E' Hd). exact Hin.
      * apply (Hdis a); [apply in_or_app; now left | exact Had].
Qed.

Lemma X13_init_rules_override_witness :
  top_get (fst (init_rules defaults_rules user_rules_shared rules_store)) (s_ "filtering")
    = Some 0%nat /\
  (forall k, dget (snd (init_rules defaults_rules user_rules_shared rules_store) 0%nat) k
             = match dget (rules_store 1%nat) k with
               | Some v => Some v | None => dget (rules_store 0%nat) k end).
Proof.
  apply (X13_init_rules_override defaults_rules user_rules_shared rules_store (s_ "filtering")
           0%nat 1%nat); simpl;
    first [reflexivity
          | intros x Hx Hx'; simpl in *; intuition (try lia)
          | repeat constructor; simpl; intuition (try discriminate; try lia)].
Defined.

(** ** Extra X14 *)

(** X14 ([__init__]): a category only the user's rules have is stored in
    [self.rules] as the user's own dict object. *)
Theorem X14_init_rules_new_category : forall defaults user h c b rules h',
  NoDup (map fst user) -> top_get defaults c = None -> top_get user c = Some b ->
  init_rules defaults user h = (rules, h') -> top_get rules c = Some b.
Proof.
  intros defaults user h c b rules h' Hk Hd Hu Hm.
  destruct (top_get_split user c b Hu) as (u1 & u2 & -> & Hc1).
  rewrite map_app in Hk. simpl in Hk.
  apply NoDup_app_remove_l in Hk as Hk2. inversion Hk2 as [|? ? Hc2 _]; subst.
  unfold init_rules in Hm. rewrite merge_rules_app in Hm.
  destruct (merge_rules defaults u1 h) as [r1 h1] eqn:M1.
  assert (K1 : top_get r1 c = None).
  { change r1 with (fst (r1, h1)). rewrite <- M1. now apply merge_keep_none. }
  cbn [merge_rules] in Hm. rewrite K1 in Hm.
  change rules with (fst (rules, h')). rewrite <- Hm. apply merge_keep; [exact Hc2|].
  rewrite top_set_missing by exact K1. rewrite top_get_app_missing by exact K1.
  simpl. now rewrite str_eqb_refl.
Qed.

Lemma X14_init_rules_new_category_witness :
  top_get (fst (init_rules defaults_rules user_rules rules_store)) (s_ "extra") = Some 3%nat.
Proof.
  eapply (X14_init_rules_new_category defaults_rules user_rules rules_store (s_ "extra") 3%nat
            _ (snd (init_rules defaults_rules user_rules rules_store))); simpl;
    first [reflexivity | repeat constructor; simpl; intuition (try discriminate; try lia)].
Defined.

(** ** Extra X15 *)

(** X15 ([return_values]): a dict value is completed by the default dict:
    each key reads the given value if the dict has it, and the default's
    value otherwise. *)
Theorem X15_return_values_dict : forall kvs dkvs, exists m,
  return_values (VDict kvs) (VDict dkvs) = Ok (VDict m) /\
  forall k, dget m k = match dget kvs k with Some v => Some v | None => dget dkvs k end.
Proof.
  intros kvs dkvs. eexists. split; [reflexivity|]. intros k. apply dget_fold_setdefault.
Qed.

(** ** RGB colours *)

Lemma quant_range : forall x, (0 <= x <= 255)%Z -> (0 <= quant x <= 5)%Z.
Proof.
  intros x Hx. unfold quant. rewrite Z.quot_div_nonneg by lia. split.
  - apply Z.div_pos; lia.
  - apply Z.div_le_upper_bound; lia.
Qed.

(** ** Extra X16 *)

(** X16 ([rgb_to_ansi]): for red, green and blue values in 0..255 the
    colour index written after [38;5;] or [48;5;] lies in the 6x6x6 colour
    cube 16..231. *)
Theorem X16_rgb_index_range : forall r g b,
  (0 <= r <= 255)%Z -> (0 <= g <= 255)%Z -> (0 <= b <= 255)%Z ->
  (16 <= color_index r g b <= 231)%Z.
Proof.
  intros r g b Hr Hg Hb. unfold color_index.
  pose proof (quant_range r Hr). pose proof (quant_range g Hg). pose proof (quant_range b Hb).
  lia.
Qed.

Lemma X16_rgb_index_range_witness :
  (0 <= 255 <= 255)%Z /\ (0 <= 128 <= 255)%Z /\ (0 <= 0 <= 255)%Z /\
  (16 <= color_index 255 128 0 <= 231)%Z.
Proof.
  split; [lia|]. split; [lia|]. split; [lia|].
  apply X16_rgb_index_range; lia.
Defined.

(** ** Extra X17 *)

(** X17 ([__parse_log_line], [colorize]): after a segment's parameter
    walk over well-formed parameters (RGB components non-negative), the
    colours and styles it collected add no visible text: removing the
    escape codes from the coloured value gives the uncoloured text. *)
Theorem X17_colorize_invisible : forall fuel tw level key ps v st s out,
  params_ok ps = true -> run_params fuel tw level key ps (init_state v) = Ok st ->
  colorize (VStr s) (st_color st) (st_style st) = Ok out -> remove_ansi out = remove_ansi s.
Proof.
  intros fuel tw level key ps v st s out Hp Hr H.
  destruct (run_params_ok fuel tw level key ps (init_state v) st (init_state_ok v) Hp Hr)
    as [Hc Hs].
  exact (colorize_strip s (st_color st) (st_style st) out Hc Hs H).
Qed.

Lemma X17_colorize_invisible_witness :
  exists st out,
    run_params 3 80 (s_ "info") (s_ "filename")
      [[(s_ "color", VDict [(s_ "foreground", VTuple [VInt 255; VInt 0; VInt 0])])];
       [(s_ "style", VDict [(s_ "bold", VBool true)])]]
      (init_state (VStr (s_ "x"))) = Ok st /\
    colorize (VStr (s_ "ab")) (st_color st) (st_style st) = Ok out /\
    remove_ansi out = remove_ansi (s_ "ab").
Proof.
  do 2 eexists. split; [reflexivity|]. split; [reflexivity|].
  eapply (X17_colorize_invisible 3 80 (s_ "info") (s_ "filename")
    [[(s_ "color", VDict [(s_ "foreground", VTuple [VInt 255; VInt 0; VInt 0])])];
     [(s_ "style", VDict [(s_ "bold", VBool true)])]]
    (VStr (s_ "x"))); reflexivity.
Defined.
(** ** [ljust], [rjust] and [center] with an integer width *)

Lemma center_left_bounds : forall marg w, (0 < marg)%Z ->
  (0 <= marg / 2 + Z.land marg (Z.land w 1) <= marg)%Z.
Proof.
  intros marg w H.
  assert (E : (Z.land marg (Z.land w 1) = Z.land marg w mod 2)%Z).
  { rewrite Z.land_assoc. exact (Z.land_ones (Z.land marg w) 1 ltac:(lia)). }
  rewrite E. pose proof (Z.div_mod marg 2 ltac:(lia)).
  pose proof (Z.mod_pos_bound marg 2 ltac:(lia)).
  pose proof (Z.mod_pos_bound (Z.land marg w) 2 ltac:(lia)).
  set (q := (marg / 2)%Z) in *. set (r := (marg mod 2)%Z) in *.
  set (m := (Z.land marg w mod 2)%Z) in *. clearbody q r m. lia.
Qed.

Lemma ljust_spec : forall x W c, exists r,
  ljust x (VInt W) (VStr [c]) = Ok r /\
  Z.of_nat (List.length r) = Z.max W (Z.of_nat (List.length x)) /\
  ((W <= Z.of_nat (List.length x))%Z -> r = x).
Proof.
  intros x W c. eexists. split; [reflexivity|].
  destruct (Z.leb_spec W (Z.of_nat (List.length x))).
  - split; [lia | reflexivity].
  - rewrite length_app, repeat_length. split; [lia | intros; lia].
Qed.

Lemma rjust_spec : forall x W c, exists r,
  rjust x (VInt W) (VStr [c]) = Ok r /\
  Z.of_nat (List.length r) = Z.max W (Z.of_nat (List.length x)) /\
  ((W <= Z.of_nat (List.length x))%Z -> r = x).
Proof.
  intros x W c. eexists. split; [reflexivity|].
  destruct (Z.leb_spec W (Z.of_nat (List.length x))).
  - split; [lia | reflexivity].
  - rewrite length_app, repeat_length. split; [lia | intros; lia].
Qed.

Lemma center_spec : forall x W c, exists r,
  center x (VInt W) (VStr [c]) = Ok r /\
  Z.of_nat (List.length r) = Z.max W (Z.of_nat (List.length x)) /\
  ((W <= Z.of_nat (List.length x))%Z -> r = x).
Proof.
  intros x W c. unfold center. cbn [bind as_int fill_char].
  destruct (Z.leb_spec (W - Z.of_nat (List.length x)) 0).
  - eexists. split; [reflexivity|]. split; [lia | reflexivity].
  - eexists. split; [reflexivity|].
    pose proof (center_left_bounds (W - Z.of_nat (List.length x)) W ltac:(lia)).
    rewrite !length_app, !repeat_length. split; [lia | intros; lia].
Qed.

Lemma ljust_shape : forall x w f y, ljust x w f = Ok y ->
  exists c l r, fill_char f = Ok c /\ y = repeat c l ++ x ++ repeat c r.
Proof.
  intros x w f y H. unfold ljust in H. peel H n E1. peel H c E2. injection H as <-.
  exists c. destruct (n <=? _)%Z.
  - exists 0%nat, 0%nat. simpl. now rewrite app_nil_r.
  - now exists 0%nat, (Z.to_nat (n - Z.of_nat (List.length x))).
Qed.

Lemma rjust_shape : forall x w f y, rjust x w f = Ok y ->
  exists c l r, fill_char f = Ok c /\ y = repeat c l ++ x ++ repeat c r.
Proof.
  intros x w f y H. unfold rjust in H. peel H n E1. peel H c E2. injection H as <-.
  exists c. destruct (n <=? _)%Z.
  - exists 0%nat, 0%nat. simpl. now rewrite app_nil_r.
  - exists (Z.to_nat (n - Z.of_nat (List.length x))), 0%nat. simpl. now rewrite app_nil_r.
Qed.

Lemma center_shape : forall x w f y, center x w f = Ok y ->
  exists c l r, fill_char f = Ok c /\ y = repeat c l ++ x ++ repeat c r.
Proof.
  intros x w f y H. unfold center in H. peel H n E1. peel H c E2.
  exists c. destruct (_ <=? 0)%Z; injection H as <-.
  - exists 0%nat, 0%nat. simpl. now rewrite app_nil_r.
  - eexists _, _. split; [reflexivity | reflexivity].
Qed.

Lemma pad_inv_step : forall s f x y,
  (x = s \/ exists c l r, fill_char f = Ok c /\ x = repeat c l ++ s ++ repeat c r) ->
  (exists c l r, fill_char f = Ok c /\ y = repeat c l ++ x ++ repeat c r) ->
  exists c l r, fill_char f = Ok c /\ y = repeat c l ++ s ++ repeat c r.
Proof.
  intros s f x y [-> | (c1 & l1 & r1 & E1 & ->)] (c2 & l2 & r2 & E2 & ->); [now exists c2, l2, r2|].
  rewrite E1 in E2. injection E2 as <-. exists c1, (l2 + l1)%nat, (r1 + r2)%nat.
  split; [exact E1|]. rewrite !repeat_app. now rewrite <- !app_assoc.
Qed.

(** ** Extra X18 *)

(** X18 ([__parse_log_line], [align]): with a known alignment name, an
    integer width and a one-character fill, the aligned value has length
    [max(width', len(value))], where [width'] is the width plus the number
    of escape-code characters of the value. *)
Theorem X18_align_width : forall s al w c,
  str_in (lower al) ["left"; "l"; "right"; "r"; "center"; "c"] = true ->
  exists s',
    apply_align (VStr s)
      (VDict [(s_ "alignment", VStr al); (s_ "width", VInt w); (s_ "fillchar", VStr [c])])
    = Ok (VStr s') /\
    Z.of_nat (List.length s')
    = Z.max (w + (Z.of_nat (List.length s) - Z.of_nat (List.length (remove_ansi s))))
            (Z.of_nat (List.length s)).
Proof.
  intros s al w c H. unfold apply_align. cbn -[remove_ansi ljust rjust center lower str_in].
  set (W := (w + _)%Z). set (L := lower al) in *.
  assert (Hs : str_in L ["left"; "l"; "right"; "r"; "center"; "c"]
               = str_in L ["left"; "l"] || str_in L ["right"; "r"] || str_in L ["center"; "c"]).
  { unfold str_in. simpl. now rewrite !orb_false_r, !orb_assoc. }
  rewrite Hs in H. clear Hs.
  destruct (str_in L ["left"; "l"]);
    [destruct (ljust_spec s W c) as (s1 & -> & Hl1 & _)|]; cbn [bind];
  destruct (str_in L ["right"; "r"]);
    try (destruct (rjust_spec s W c) as (s2 & -> & Hl2 & _));
    try (destruct (rjust_spec s1 W c) as (s2 & -> & Hl2 & E2); rewrite E2 in * by lia);
    cbn [bind];
  destruct (str_in L ["center"; "c"]);
    try (destruct (center_spec s W c) as (s3 & -> & Hl3 & _));
    try (destruct (center_spec s1 W c) as (s3 & -> & Hl3 & E3); rewrite E3 in * by lia);
    try (destruct (center_spec s2 W c) as (s3 & -> & Hl3 & E3); rewrite E3 in * by lia);
    cbn [bind]; try discriminate; eexists; split; try reflexivity; assumption.
Qed.

Lemma X18_align_width_witness :
  str_in (lower (s_ "Right")) ["left"; "l"; "right"; "r"; "center"; "c"] = true /\
  exists s',
    apply_align (VStr (s_ "ab"))
      (VDict [(s_ "alignment", VStr (s_ "Right")); (s_ "width", VInt 5); (s_ "fillchar", VStr [46])])
    = Ok (VStr s') /\
    Z.of_nat (List.length s')
    = Z.max (5 + (Z.of_nat (List.length (s_ "ab")) - Z.of_nat (List.length (remove_ansi (s_ "ab")))))
            (Z.of_nat (List.length (s_ "ab"))).
Proof.
  split; [reflexivity|]. apply X18_align_width. reflexivity.
Defined.

(** ** Extra X19 *)

(** X19 ([__parse_log_line], [align]): alignment only adds fill
    characters: when it succeeds, the value is a string and the result is
    that string with copies of one fill character before and after it. *)
Theorem X19_align_only_pads : forall value pv r,
  apply_align value pv = Ok r ->
  exists s c l rr, value = VStr s /\ r = VStr (repeat c l ++ s ++ repeat c rr).
Proof.
  intros value pv r H. unfold apply_align in H.
  peel H pv' E1. peel H kvs E2. peel H s E3. peel H w E4. peel H al E5. peel H al' E6.
  peel H f E7.
  destruct value; cbn [as_str] in E3; try discriminate. injection E3 as ->.
  exists s.
  peel H s1 E8.
  assert (J1 : s1 = s \/ exists c l rr, fill_char f = Ok c /\ s1 = repeat c l ++ s ++ repeat c rr).
  { destruct (str_in (lower al') ["left"; "l"]); [right | left; congruence].
    apply (pad_inv_step s f s); [now left | exact (ljust_shape _ _ _ _ E8)]. }
  peel H s2 E9.
  assert (J2 : s2 = s \/ exists c l rr, fill_char f = Ok c /\ s2 = repeat c l ++ s ++ repeat c rr).
  { destruct (str_in (lower al') ["right"; "r"]).
    - right. apply (pad_inv_step s f s1); [exact J1 | exact (rjust_shape _ _ _ _ E9)].
    - injection E9 as <-. exact J1. }
  peel H s3 E10. injection H as <-.
  assert (E : s3 = s \/ exists c l rr, fill_char f = Ok c /\ s3 = repeat c l ++ s ++ repeat c rr).
  { destruct (str_in (lower al') ["center"; "c"]).
    - right. apply (pad_inv_step s f s2); [exact J2 | exact (center_shape _ _ _ _ E10)].
    - injection E10 as <-. exact J2. }
  destruct E as [-> | (c & l & rr & _ & ->)].
  - exists 0, 0%nat, 0%nat. split; [reflexivity|]. simpl. now rewrite app_nil_r.
  - now exists c, l, rr.
Qed.

Lemma X19_align_only_pads_witness :
  exists r s c l rr,
    apply_align (VStr (s_ "ab")) (VDict [(s_ "alignment", VStr (s_ "center")); (s_ "width", VInt 6)])
    = Ok r /\ VStr (s_ "ab") = VStr s /\ r = VStr (repeat c l ++ s ++ repeat c rr).
Proof.
  eexists. destruct (X19_align_only_pads (VStr (s_ "ab"))
    (VDict [(s_ "alignment", VStr (s_ "center")); (s_ "width", VInt 6)])
    (VStr (s_ "  ab  ")) eq_refl) as (s & c & l & rr & H1 & H2).
  exists s, c, l, rr. split; [reflexivity|]. split; assumption.
Defined.

(** ** Extra X20 *)

(** X20 ([__parse_log_line], [truncate]): with an integer width and a
    string ending, the default position [end] keeps the value when it fits
    in [width'] (the width plus the value's escape-code characters) and
    otherwise cuts it to [width' - len(ending)] characters followed by the
    ending, [width'] characters in all, provided the ending fits. *)
Theorem X20_truncate_end : forall s w e,
  (Z.of_nat (List.length e)
   <= w + (Z.of_nat (List.length s) - Z.of_nat (List.length (remove_ansi s))))%Z ->
  exists t,
    apply_truncate (VStr s) (VDict [(s_ "width", VInt w); (s_ "ending", VStr e)]) = Ok (VStr t) /\
    let W := (w + (Z.of_nat (List.length s) - Z.of_nat (List.length (remove_ansi s))))%Z in
    ((W < Z.of_nat (List.length s))%Z ->
       t = firstn (Z.to_nat (W - Z.of_nat (List.length e))) s ++ e /\
       Z.of_nat (List.length t) = W) /\
    ((Z.of_nat (List.length s) <= W)%Z -> t = s).
Proof.
  intros s w e He. unfold apply_truncate. cbn -[remove_ansi slice_to Z.ltb].
  set (W := (w + _)%Z) in *.
  destruct (Z.ltb_spec W (Z.of_nat (List.length s))).
  - eexists. split; [reflexivity|]. cbv zeta. split; [|intros; lia].
    intros _. unfold slice_to, norm_index.
    replace (W - Z.of_nat (List.length e) <? 0)%Z with false by (symmetry; apply Z.ltb_ge; lia).
    split; [reflexivity|]. rewrite length_app, firstn_length_le; lia.
  - eexists. split; [reflexivity|]. cbv zeta. split; [intros; lia | reflexivity].
Qed.

Lemma X20_truncate_end_witness :
  exists t,
    apply_truncate (VStr (s_ "abcdefgh")) (VDict [(s_ "width", VInt 5); (s_ "ending", VStr ellipsis)])
    = Ok (VStr t) /\
    let W := (5 + (Z.of_nat (List.length (s_ "abcdefgh"))
                   - Z.of_nat (List.length (remove_ansi (s_ "abcdefgh")))))%Z in
    ((W < Z.of_nat (List.length (s_ "abcdefgh")))%Z ->
       t = firstn (Z.to_nat (W - Z.of_nat (List.length ellipsis))) (s_ "abcdefgh") ++ ellipsis /\
       Z.of_nat (List.length t) = W) /\
    ((Z.of_nat (List.length (s_ "abcdefgh")) <= W)%Z -> t = s_ "abcdefgh").
Proof.
  apply X20_truncate_end. vm_compute. discriminate.
Defined.

(** ** Extra X21 *)

(** X21 ([__parse_log_line], [if]): an [if] parameter with a breakpoint
    condition and a [parameters] action inserts the action's parameters,
    one per key, right after itself when [min <= terminal width < max], and
    nothing otherwise. *)
Theorem X21_if_breakpoint_splice : forall f tw level key mn mx acts rest st,
  run_params (S f) tw level key
    ([(s_ "if",
       VDict [(s_ "condition",
               VDict [(s_ "type", VStr (s_ "breakpoint"));
                      (s_ "value", VDict [(s_ "min", VInt mn); (s_ "max", VInt mx)])]);
              (s_ "action",
               VDict [(s_ "type", VStr (s_ "parameters")); (s_ "value", VDict acts)])])]
     :: rest) st
  = run_params f tw level key
      ((if (mn <=? tw)%Z && (tw <? mx)%Z then map (fun kv => [kv]) acts else []) ++ rest) st.
Proof.
  intros. cbn [run_params]. unfold apply_param, apply_if. cbn -[run_params].
  destruct (mn <=? tw)%Z; [destruct (tw <? mx)%Z|]; reflexivity.
Qed.
